(** * dbdiff: the schema differ of the SQLite and PostgreSQL drivers

    A shallow embedding of [drivers/sqlite*.go] and [drivers/postgres*.go]:
    the schema model, the renderers, the column classification, the
    table-level and database-level differs and the connection handling of
    the engine adapter, followed by the properties of the specification. *)

From Stdlib Require Import Ascii String.
From stdpp Require Import base list strings gmap.

Set Default Proof Using "Type".

(** * Go runtime and library functions used by the drivers *)

Module Go.

(** Characters that Go string literals escape. *)
Definition dquote : string := String "034"%char EmptyString.
Definition nl : string := String "010"%char EmptyString.
Definition tab : string := String "009"%char EmptyString.

(** [fmt.Sprintf] of the format [%s] between two double quotes. *)
Definition quoted (s : string) : string := dquote +:+ s +:+ dquote.

(** [strings.Join(elems, sep)] *)
Fixpoint Join (elems : list string) (sep : string) : string :=
  match elems with
  | [] => EmptyString
  | [e] => e
  | e :: rest => e +:+ sep +:+ Join rest sep
  end.

(** [strings.Builder]: the concatenation of everything written so far. *)
Definition Builder := string.
Definition Fprint (b : Builder) (s : string) : Builder := b +:+ s.
(** [fmt.Fprintln(&b, s)] *)
Definition Fprintln (b : Builder) (s : string) : Builder := b +:+ s +:+ nl.

(** [database/sql.NullString] *)
Record NullString := { String_ : string; Valid : bool }.

#[global] Instance NullString_eq_dec : EqDecision NullString.
Proof. solve_decision. Defined.

(** ** [strings.TrimSpace]

    White space as defined by Unicode ([unicode.IsSpace]), on the UTF-8
    bytes of the string: the six ASCII characters of [asciiSpace], U+0085
    and U+00A0 (two bytes), U+1680, U+2000..U+200A, U+2028, U+2029,
    U+202F, U+205F and U+3000 (three bytes). *)
Definition byte (c : ascii) : N := N_of_ascii c.

Definition asciiSpace (c : ascii) : bool :=
  match byte c with
  | 9 | 10 | 11 | 12 | 13 | 32 => true
  | _ => false
  end%N.

Definition space2 (b1 b2 : ascii) : bool :=
  match byte b1, byte b2 with
  | 194, 133 | 194, 160 => true
  | _, _ => false
  end%N.

Definition space3 (b1 b2 b3 : ascii) : bool :=
  match byte b1, byte b2, byte b3 with
  | 225, 154, 128 => true
  | 226, 128, b => (128 <=? b)%N && (b <=? 138)%N
                   || (b =? 168)%N || (b =? 169)%N || (b =? 175)%N
  | 226, 129, 159 => true
  | 227, 128, 128 => true
  | _, _, _ => false
  end%N.

(** Drop the white-space runes at the front of a byte sequence; with
    [back] the sequence is a reversed string and the bytes of a rune come
    last byte first. *)
Fixpoint trimFront (back : bool) (s : list ascii) : list ascii :=
  match s with
  | [] => []
  | c1 :: r1 =>
      if asciiSpace c1 then trimFront back r1
      else
        match r1 with
        | c2 :: r2 =>
            if (if back then space2 c2 c1 else space2 c1 c2)
            then trimFront back r2
            else
              match r2 with
              | c3 :: r3 =>
                  if (if back then space3 c3 c2 c1 else space3 c1 c2 c3)
                  then trimFront back r3
                  else s
              | [] => s
              end
        | [] => s
        end
  end.

Definition TrimSpace (s : string) : string :=
  string_of_list_ascii
    (rev (trimFront true (rev (trimFront false (list_ascii_of_string s))))).

(** ** Results: Go's [(T, error)] pairs *)
Inductive result (A : Type) : Type :=
| Ok (a : A)
| Err (msg : string).
Arguments Ok {A} a.
Arguments Err {A} msg.

(** The early return on [err != nil] after every fallible call. *)
#[global] Instance result_ret : MRet result := λ A a, Ok a.
#[global] Instance result_bind : MBind result := λ A B k r,
  match r with
  | Ok a => k a
  | Err e => Err e
  end.

(** ** Maps

    A Go [map[string]string] is a finite map; a [range] over it visits
    the entries in an order that the runtime picks afresh for every loop.
    A [MapOrder] is the choice made for one loop. *)
Definition MapOrder := gmap string string → list (string * string).

Definition valid_order (iter : MapOrder) : Prop :=
  ∀ m, iter m ≡ₚ map_to_list m.

(** [lo.Invert(in)]: [for k := range in { out[in[k]] = k }] *)
Definition Invert (iter : MapOrder) (m : gmap string string) : gmap string string :=
  foldl (λ out kv, <[kv.2 := kv.1]> out) ∅ (iter m).

(** [lo.Contains(lo.Keys(m), k)]; the order of the keys is immaterial. *)
Definition ContainsKey (m : gmap string string) (k : string) : bool :=
  bool_decide (k ∈ (map_to_list m).*1).

End Go.


Import Go.

(** * Emitted statements

  Every [fmt.Fprintf] of the table-level differs writes one statement;
  [render] is the text that the format string produces, with its final
  newline. *)

Inductive Stmt : Type :=
| CreateTable (ddl : string)
| InsertSelect (into : string) (columns exprs : list string) (from : string)
| DropTable (name : string)
| RenameTable (old new : string)
| CreateIndex (ddl : string)
| DropIndex (name : string)
| CreateTrigger (ddl : string)
| DropTrigger (name : string)
| DropTriggerOn (name table : string)
| RenameColumn (table old new : string)
| DropColumn (table column : string)
| AddColumn (table columnDef : string)
| AlterColumnType (table column type : string)
| SetNotNull (table column : string)
| DropNotNull (table column : string)
| SetDefault (table column expr : string)
| DropDefault (table column : string)
| AddConstraint (table constraintDef : string)
| DropConstraint (table name : string).

#[global] Instance Stmt_eq_dec : EqDecision Stmt.
Proof. solve_decision. Defined.

Definition alterTable (table : string) : string :=
  "ALTER TABLE " +:+ quoted table.

Definition alterColumn (table column : string) : string :=
  alterTable table +:+ " ALTER COLUMN " +:+ quoted column.

Definition render (s : Stmt) : string :=
  match s with
  | CreateTable ddl => ddl +:+ nl
  | InsertSelect into columns exprs from =>
      "INSERT INTO " +:+ quoted into +:+ " (" +:+ Join columns ", "
      +:+ ") SELECT " +:+ Join exprs ", " +:+ " FROM " +:+ quoted from
      +:+ ";" +:+ nl
  | DropTable name => "DROP TABLE " +:+ quoted name +:+ ";" +:+ nl
  | RenameTable old new =>
      alterTable old +:+ " RENAME TO " +:+ quoted new +:+ ";" +:+ nl
  | CreateIndex ddl => ddl +:+ nl
  | DropIndex name => "DROP INDEX " +:+ quoted name +:+ ";" +:+ nl
  | CreateTrigger ddl => ddl +:+ nl
  | DropTrigger name => "DROP TRIGGER " +:+ quoted name +:+ ";" +:+ nl
  | DropTriggerOn name table =>
      "DROP TRIGGER " +:+ quoted name +:+ " ON " +:+ quoted table
      +:+ ";" +:+ nl
  | RenameColumn table old new =>
      alterTable table +:+ " RENAME COLUMN " +:+ quoted old +:+ " TO "
      +:+ quoted new +:+ ";" +:+ nl
  | DropColumn table column =>
      alterTable table +:+ " DROP COLUMN " +:+ quoted column +:+ ";" +:+ nl
  | AddColumn table columnDef =>
      alterTable table +:+ " ADD COLUMN " +:+ columnDef +:+ ";" +:+ nl
  | AlterColumnType table column type =>
      alterColumn table column +:+ " TYPE " +:+ type +:+ ";" +:+ nl
  | SetNotNull table column =>
      alterColumn table column +:+ " SET NOT NULL;" +:+ nl
  | DropNotNull table column =>
      alterColumn table column +:+ " DROP NOT NULL;" +:+ nl
  | SetDefault table column expr =>
      alterColumn table column +:+ " SET DEFAULT " +:+ expr +:+ ";" +:+ nl
  | DropDefault table column =>
      alterColumn table column +:+ " DROP DEFAULT;" +:+ nl
  | AddConstraint table constraintDef =>
      alterTable table +:+ " ADD " +:+ constraintDef +:+ ";" +:+ nl
  | DropConstraint table name =>
      alterTable table +:+ " DROP CONSTRAINT " +:+ quoted name +:+ ";" +:+ nl
  end.

(** The content of a [strings.Builder] after the statements were written. *)
Definition written (stmts : list Stmt) : Builder :=
  foldl (λ b s, Fprint b (render s)) EmptyString stmts.

(** The statement kinds of the two strategies for a column change. *)
Definition isColumnAlteration (s : Stmt) : bool :=
  match s with
  | RenameColumn _ _ _ | DropColumn _ _ | AddColumn _ _
  | AlterColumnType _ _ _ | SetNotNull _ _ | DropNotNull _ _
  | SetDefault _ _ _ | DropDefault _ _ => true
  | _ => false
  end.

Definition isRebuildStep (s : Stmt) : bool :=
  match s with
  | CreateTable _ | InsertSelect _ _ _ _ | DropTable _ | RenameTable _ _
  | CreateIndex _ => true
  | _ => false
  end.

(** * SQLite schema model and renderers *)

Module SQLiteColumn.

Record t : Type := {
  Name : string;
  Type_ : string;
  NotNull : bool;
  PrimaryKey : bool;
  Default : NullString;
}.

#[global] Instance eq_dec : EqDecision t.
Proof. solve_decision. Defined.

Definition withName (c : t) (name : string) : t :=
  {| Name := name; Type_ := Type_ c; NotNull := NotNull c;
     PrimaryKey := PrimaryKey c; Default := Default c |}.

Definition HasEqualAttributes (c other : t) : bool :=
  let copy := withName c (Name other) in
  bool_decide (copy = other).

Definition compatibleTypes : gmap string bool :=
  list_to_map [("TEXT", true); ("INTEGER", true); ("REAL", true); ("BLOB", true)].

Definition IsTypeChangeCompatible (c other : t) : bool :=
  let c1 := bool_decide (is_Some (compatibleTypes !! Type_ c)) in
  let c2 := bool_decide (is_Some (compatibleTypes !! Type_ other)) in
  c1 && c2.

Definition String (c : t) : string :=
  let value := quoted (Name c) +:+ " " +:+ Type_ c in
  let value := if NotNull c then value +:+ " NOT NULL" else value in
  let value := if PrimaryKey c then value +:+ " PRIMARY KEY" else value in
  let value :=
    if Valid (Default c) then value +:+ " DEFAULT " +:+ String_ (Default c)
    else value in
  value.

End SQLiteColumn.

(** [for i := range a { if a[i] != b[i] { return false } }], reached only
  when the two slices have the same length. *)
Definition sameElements (a b : list string) : bool :=
  forallb (λ i, bool_decide (a !! i = b !! i)) (seq 0 (length a)).

Module SQLiteForeignKey.

Record t : Type := {
  Table : string;
  From : list string;
  To : list string;
  OnUpdate : string;
  OnDelete : string;
}.

#[global] Instance eq_dec : EqDecision t.
Proof. solve_decision. Defined.

Definition Equal (fk other : t) : bool :=
  if bool_decide (Table fk ≠ Table other) || bool_decide (OnUpdate fk ≠ OnUpdate other)
     || bool_decide (OnDelete fk ≠ OnDelete other)
  then false
  else if bool_decide (length (From fk) ≠ length (From other))
          || bool_decide (length (To fk) ≠ length (To other))
  then false
  else if negb (sameElements (From fk) (From other)) then false
  else if negb (sameElements (To fk) (To other)) then false
  else true.

Definition String (fk : t) : string :=
  let fromColumns := Join (quoted <$> From fk) ", " in
  let toColumns := Join (quoted <$> To fk) ", " in
  let s := "FOREIGN KEY (" +:+ fromColumns +:+ ") REFERENCES "
           +:+ quoted (Table fk) +:+ " (" +:+ toColumns +:+ ")" in
  let s :=
    if bool_decide (OnUpdate fk ≠ "NO ACTION") && bool_decide (OnUpdate fk ≠ EmptyString)
    then s +:+ " ON UPDATE " +:+ OnUpdate fk else s in
  let s :=
    if bool_decide (OnDelete fk ≠ "NO ACTION") && bool_decide (OnDelete fk ≠ EmptyString)
    then s +:+ " ON DELETE " +:+ OnDelete fk else s in
  s.

End SQLiteForeignKey.

Module SQLiteIndex.

Record t : Type := {
  Table : string;
  Name : string;
  Columns : list string;
  Unique : bool;
}.

#[global] Instance eq_dec : EqDecision t.
Proof. solve_decision. Defined.

Definition Equal (i other : t) : bool :=
  if bool_decide (Name i ≠ Name other) || bool_decide (Table i ≠ Table other)
     || bool_decide (Unique i ≠ Unique other)
  then false
  else if bool_decide (length (Columns i) ≠ length (Columns other)) then false
  else if negb (sameElements (Columns i) (Columns other)) then false
  else true.

Definition String (i : t) : string :=
  let createIndex := "CREATE " in
  let createIndex := if Unique i then createIndex +:+ "UNIQUE " else createIndex in
  let columns := Join (quoted <$> Columns i) ", " in
  createIndex +:+ "INDEX " +:+ quoted (Name i) +:+ " ON " +:+ quoted (Table i)
  +:+ " (" +:+ columns +:+ ");".

End SQLiteIndex.

Module SQLiteTrigger.

Record t : Type := { Name : string; SQL : string }.

#[global] Instance eq_dec : EqDecision t.
Proof. solve_decision. Defined.

End SQLiteTrigger.

Module SQLiteView.

Record t : Type := { Name : string; SQL : string }.

#[global] Instance eq_dec : EqDecision t.
Proof. solve_decision. Defined.

Definition Diff (v other : t) : result string :=
  let diff : Builder := EmptyString in
  let diff :=
    if bool_decide (SQL v ≠ SQL other)
    then Fprint (Fprint diff ("DROP VIEW " +:+ quoted (Name other) +:+ ";" +:+ nl))
                (SQL v +:+ ";" +:+ nl)
    else diff in
  Ok (TrimSpace diff).

End SQLiteView.

Module SQLiteTable.

Record t : Type := {
  Name : string;
  Columns : list SQLiteColumn.t;
  Indexes : list SQLiteIndex.t;
  Triggers : list SQLiteTrigger.t;
  ForeignKeys : list SQLiteForeignKey.t;
}.

#[global] Instance eq_dec : EqDecision t.
Proof. solve_decision. Defined.

Definition Copy (t0 : t) : t := t0.

Definition withName (t0 : t) (name : string) : t :=
  {| Name := name; Columns := Columns t0; Indexes := Indexes t0;
     Triggers := Triggers t0; ForeignKeys := ForeignKeys t0 |}.

Definition ColumnByName (t0 : t) (name : string) : option SQLiteColumn.t :=
  find (λ column, bool_decide (SQLiteColumn.Name column = name)) (Columns t0).

Definition IndexByName (t0 : t) (name : string) : option SQLiteIndex.t :=
  find (λ index, bool_decide (SQLiteIndex.Name index = name)) (Indexes t0).

Definition TriggerByName (t0 : t) (name : string) : option SQLiteTrigger.t :=
  find (λ trigger, bool_decide (SQLiteTrigger.Name trigger = name)) (Triggers t0).

Definition StringCreateTable (t0 : t) : string :=
  let columnLines := (λ column, tab +:+ SQLiteColumn.String column) <$> Columns t0 in
  let columnLines :=
    columnLines ++ ((λ fk, tab +:+ SQLiteForeignKey.String fk) <$> ForeignKeys t0) in
  let createTableColumns := Join columnLines ("," +:+ nl) in
  "CREATE TABLE " +:+ quoted (Name t0) +:+ " (" +:+ nl +:+ createTableColumns
  +:+ nl +:+ ");".

Definition StringCreateIndexes (t0 : t) : string :=
  Join (SQLiteIndex.String <$> Indexes t0) nl.

Definition StringCreateTriggers (t0 : t) : string :=
  Join ((λ trigger, SQLiteTrigger.SQL trigger +:+ ";") <$> Triggers t0) nl.

Definition String (t0 : t) : string :=
  let str := StringCreateTable t0 in
  let indexes := StringCreateIndexes t0 in
  let str := if bool_decide (indexes ≠ EmptyString) then str +:+ nl +:+ indexes else str in
  let triggers := StringCreateTriggers t0 in
  let str := if bool_decide (triggers ≠ EmptyString) then str +:+ nl +:+ triggers else str in
  str.

(** ** Column classification *)

Record ColumnsDiff : Type := {
  Added : list string;
  Modified : list string;
  Removed : list string;
  Renamed : gmap string string; (* oldName -> newName *)
  ForeignKeysChanged : bool;
}.

Definition emptyDiff : ColumnsDiff :=
  {| Added := []; Modified := []; Removed := []; Renamed := ∅;
     ForeignKeysChanged := false |}.

Definition addAdded (d : ColumnsDiff) (name : string) : ColumnsDiff :=
  {| Added := Added d ++ [name]; Modified := Modified d; Removed := Removed d;
     Renamed := Renamed d; ForeignKeysChanged := ForeignKeysChanged d |}.

Definition addModified (d : ColumnsDiff) (name : string) : ColumnsDiff :=
  {| Added := Added d; Modified := Modified d ++ [name]; Removed := Removed d;
     Renamed := Renamed d; ForeignKeysChanged := ForeignKeysChanged d |}.

Definition addRemoved (d : ColumnsDiff) (name : string) : ColumnsDiff :=
  {| Added := Added d; Modified := Modified d; Removed := Removed d ++ [name];
     Renamed := Renamed d; ForeignKeysChanged := ForeignKeysChanged d |}.

Definition setRenamed (d : ColumnsDiff) (oldName newName : string) : ColumnsDiff :=
  {| Added := Added d; Modified := Modified d; Removed := Removed d;
     Renamed := <[oldName := newName]> (Renamed d);
     ForeignKeysChanged := ForeignKeysChanged d |}.

Definition setForeignKeysChanged (d : ColumnsDiff) (b : bool) : ColumnsDiff :=
  {| Added := Added d; Modified := Modified d; Removed := Removed d;
     Renamed := Renamed d; ForeignKeysChanged := b |}.

(** The predicate of the rename search: a target column that does not
    exist in the source table and has the attributes of [sourceColumn]. *)
Definition renameCandidate (t0 : t) (sourceColumn c : SQLiteColumn.t) : bool :=
  let existsInSourceTable := bool_decide (is_Some (ColumnByName t0 (SQLiteColumn.Name c))) in
  negb existsInSourceTable && SQLiteColumn.HasEqualAttributes c sourceColumn.

(** Body of the first loop of [DiffColumns], over the source columns. *)
Definition diffSourceColumn (t0 other : t) (diff : ColumnsDiff)
    (sourceColumn : SQLiteColumn.t) : ColumnsDiff :=
  match ColumnByName other (SQLiteColumn.Name sourceColumn) with
  | None =>
      match find (renameCandidate t0 sourceColumn) (Columns other) with
      | Some renamedColumn =>
          setRenamed diff (SQLiteColumn.Name renamedColumn) (SQLiteColumn.Name sourceColumn)
      | None => addAdded diff (SQLiteColumn.Name sourceColumn)
      end
  | Some targetColumn =>
      if bool_decide (sourceColumn = targetColumn) then diff
      else if bool_decide (SQLiteColumn.Type_ sourceColumn ≠ SQLiteColumn.Type_ targetColumn) then
        if SQLiteColumn.IsTypeChangeCompatible sourceColumn targetColumn
        then addModified diff (SQLiteColumn.Name sourceColumn)
        else addAdded (addRemoved diff (SQLiteColumn.Name targetColumn))
                      (SQLiteColumn.Name sourceColumn)
      else addModified diff (SQLiteColumn.Name sourceColumn)
  end.

(** Body of the second loop, over the target columns. *)
Definition diffTargetColumn (t0 : t) (diff : ColumnsDiff)
    (targetColumn : SQLiteColumn.t) : ColumnsDiff :=
  let found := bool_decide (is_Some (ColumnByName t0 (SQLiteColumn.Name targetColumn))) in
  if negb found && negb (ContainsKey (Renamed diff) (SQLiteColumn.Name targetColumn))
  then addRemoved diff (SQLiteColumn.Name targetColumn)
  else diff.

(** The foreign-key check: different lengths, or the first source foreign
    key that [Equal]s no target foreign key ends the loop with [true]. *)
Definition foreignKeysChanged (t0 other : t) : bool :=
  if bool_decide (length (ForeignKeys t0) ≠ length (ForeignKeys other)) then true
  else
    existsb (λ sourceForeignKey,
               negb (existsb (λ fk, SQLiteForeignKey.Equal fk sourceForeignKey)
                             (ForeignKeys other)))
            (ForeignKeys t0).

Definition DiffColumns (t0 other : t) : ColumnsDiff :=
  let diff := emptyDiff in
  let diff := foldl (diffSourceColumn t0 other) diff (Columns t0) in
  let diff := foldl (diffTargetColumn t0) diff (Columns other) in
  if foreignKeysChanged t0 other then setForeignKeysChanged diff true else diff.

(** ** Table-level diff *)

(** Body of the loop that builds the INSERT column list and the SELECT
    expressions of a rebuild. *)
Definition rebuildColumn (other : t) (newToOld : gmap string string)
    (acc : list string * list string) (newCol : SQLiteColumn.t)
    : list string * list string :=
  let insertColumns := acc.1 ++ [quoted (SQLiteColumn.Name newCol)] in
  let selectColumns := acc.2 in
  if bool_decide (is_Some (ColumnByName other (SQLiteColumn.Name newCol)))
  then (insertColumns, selectColumns ++ [quoted (SQLiteColumn.Name newCol)])
  else
    match newToOld !! SQLiteColumn.Name newCol with
    | Some oldName => (insertColumns, selectColumns ++ [quoted oldName])
    | None =>
        if Valid (SQLiteColumn.Default newCol)
        then (insertColumns, selectColumns ++ [String_ (SQLiteColumn.Default newCol)])
        else (insertColumns, selectColumns ++ ["NULL"])
    end.

(** The loop over [columnsDiff.Added] of the in-place branch. *)
Fixpoint addColumns (t0 : t) (added : list string) : result (list Stmt) :=
  match added with
  | [] => Ok []
  | columnName :: rest =>
      match ColumnByName t0 columnName with
      | None =>
          Err ("internal error: added column " +:+ columnName
               +:+ " not found in table " +:+ Name t0)
      | Some column =>
          stmts ← addColumns t0 rest;
          Ok (AddColumn (Name t0) (SQLiteColumn.String column) :: stmts)
      end
  end.

Definition rebuildTriggered (columnsDiff : ColumnsDiff) : bool :=
  bool_decide (0 < length (Modified columnsDiff)) || ForeignKeysChanged columnsDiff.

Definition tempTable (t0 : t) : t :=
  withName (Copy t0) ("_" +:+ Name t0 +:+ "_temp").

(** The statements that [DiffTable] writes to its builder, in order. *)
Definition DiffTableStmts (iter : MapOrder) (t0 other : t) : result (list Stmt) :=
  let columnsDiff := DiffColumns t0 other in
  if rebuildTriggered columnsDiff then
    let tempTable := tempTable t0 in
    let newToOld := Invert iter (Renamed columnsDiff) in
    let columns := foldl (rebuildColumn other newToOld) ([], []) (Columns t0) in
    Ok ([ CreateTable (StringCreateTable tempTable);
          InsertSelect (Name tempTable) columns.1 columns.2 (Name t0);
          DropTable (Name t0);
          RenameTable (Name tempTable) (Name t0) ]
        ++ ((λ idx, CreateIndex (SQLiteIndex.String idx)) <$> Indexes t0))
  else
    let renames :=
      (λ kv, RenameColumn (Name t0) kv.1 kv.2) <$> iter (Renamed columnsDiff) in
    let drops := DropColumn (Name t0) <$> Removed columnsDiff in
    adds ← addColumns t0 (Added columnsDiff);
    Ok (renames ++ drops ++ adds).

Definition DiffTable (iter : MapOrder) (t0 other : t) : result string :=
  stmts ← DiffTableStmts iter t0 other;
  Ok (TrimSpace (written stmts)).

Definition DiffTriggersStmts (t0 other : t) : list Stmt :=
  flat_map (λ sourceTrigger,
              match TriggerByName other (SQLiteTrigger.Name sourceTrigger) with
              | None => [CreateTrigger (SQLiteTrigger.SQL sourceTrigger +:+ ";")]
              | Some targetTrigger =>
                  if bool_decide (SQLiteTrigger.SQL sourceTrigger ≠ SQLiteTrigger.SQL targetTrigger)
                  then [DropTrigger (SQLiteTrigger.Name targetTrigger);
                        CreateTrigger (SQLiteTrigger.SQL sourceTrigger +:+ ";")]
                  else []
              end) (Triggers t0)
  ++ flat_map (λ targetTrigger,
                 match TriggerByName t0 (SQLiteTrigger.Name targetTrigger) with
                 | None => [DropTrigger (SQLiteTrigger.Name targetTrigger)]
                 | Some _ => []
                 end) (Triggers other).

Definition DiffTriggers (t0 other : t) : result string :=
  Ok (written (DiffTriggersStmts t0 other)).

Definition DiffIndexesStmts (t0 other : t) : list Stmt :=
  flat_map (λ sourceIndex,
              match IndexByName other (SQLiteIndex.Name sourceIndex) with
              | None => [CreateIndex (SQLiteIndex.String sourceIndex)]
              | Some targetIndex =>
                  if negb (SQLiteIndex.Equal sourceIndex targetIndex)
                  then [DropIndex (SQLiteIndex.Name targetIndex);
                        CreateIndex (SQLiteIndex.String sourceIndex)]
                  else []
              end) (Indexes t0)
  ++ flat_map (λ targetIndex,
                 match IndexByName t0 (SQLiteIndex.Name targetIndex) with
                 | None => [DropIndex (SQLiteIndex.Name targetIndex)]
                 | Some _ => []
                 end) (Indexes other).

Definition DiffIndexes (t0 other : t) : result string :=
  Ok (written (DiffIndexesStmts t0 other)).

End SQLiteTable.

(** * Connections

  What the drivers need from [database/sql]: opening a data source,
  closing a handle, and the schema that the catalog queries of the
  introspector return on a handle. The environment fixes which of these
  calls fail; the world records the handles that are open. *)

Module sql.

Record DB : Type := { dataSourceName : string }.

#[global] Instance DB_eq_dec : EqDecision DB.
Proof. solve_decision. Defined.

Record Env (Table View : Type) : Type := {
  openError : string → option string;
  closeError : DB → option string;
  catalogTables : DB → result (list Table);
  catalogViews : DB → result (list View);
}.
Arguments openError {Table View}.
Arguments closeError {Table View}.
Arguments catalogTables {Table View}.
Arguments catalogViews {Table View}.

(** The handles that were opened and not yet closed. *)
Definition World := list DB.

(** Closing a handle releases that handle only: one occurrence leaves the
    world. *)
Fixpoint release (db : DB) (w : World) : World :=
  match w with
  | [] => []
  | h :: rest => if bool_decide (h = db) then rest else h :: release db rest
  end.

(** [sql.Open(driverName, dataSourceName)] *)
Definition Open {Table View} (env : Env Table View) (dataSourceName : string)
    (w : World) : result DB * World :=
  match openError env dataSourceName with
  | Some err => (Err err, w)
  | None =>
      let db := {| dataSourceName := dataSourceName |} in
      (Ok db, db :: w)
  end.

(** [db.Close()]: the handle is released; the error, if any, is reported. *)
Definition Close {Table View} (env : Env Table View) (db : DB)
    (w : World) : option string * World :=
  (closeError env db, release db w).

End sql.

(** * SQLite engine adapter *)

Module SQLiteDriver.

Record SQLLiteDriverConfig : Type := {
  SourceDatabasePath : string;
  TargetDatabasePath : string;
}.

Record t : Type := {
  SourceDatabaseConnection : sql.DB;
  TargetDatabaseConnection : sql.DB;
}.

Definition Env := sql.Env SQLiteTable.t SQLiteView.t.

Definition NewSQLiteDriver (env : Env) (config : SQLLiteDriverConfig)
    (w : sql.World) : result t * sql.World :=
  let (r, w) := sql.Open env (SourceDatabasePath config) w in
  match r with
  | Err err => (Err err, w)
  | Ok sourceDatabaseConnection =>
      let (r, w) := sql.Open env (TargetDatabasePath config) w in
      match r with
      | Err err => (Err err, w)
      | Ok targetDatabaseConnection =>
          (Ok {| SourceDatabaseConnection := sourceDatabaseConnection;
                 TargetDatabaseConnection := targetDatabaseConnection |}, w)
      end
  end.

Definition Close (env : Env) (d : t) (w : sql.World) : option string * sql.World :=
  let (err, w) := sql.Close env (SourceDatabaseConnection d) w in
  match err with
  | Some e => (Some e, w)
  | None =>
      let (err, w) := sql.Close env (TargetDatabaseConnection d) w in
      match err with
      | Some e => (Some e, w)
      | None => (None, w)
      end
  end.

Definition GetTables (env : Env) (db : sql.DB) : result (list SQLiteTable.t) :=
  sql.catalogTables env db.

Definition GetViews (env : Env) (db : sql.DB) : result (list SQLiteView.t) :=
  sql.catalogViews env db.

(** First loop of [DiffTables]; [i] counts the source tables visited, and
    [iters i] is the order in which the runtime enumerates the rename map
    while that table is diffed. *)
Fixpoint diffSourceTables (iters : nat → MapOrder) (i : nat)
    (targetTables sourceTables : list SQLiteTable.t) (diff : Builder)
    : result Builder :=
  match sourceTables with
  | [] => Ok diff
  | sourceTable :: rest =>
      match find (λ t0, bool_decide (SQLiteTable.Name t0 = SQLiteTable.Name sourceTable))
                 targetTables with
      | None =>
          diffSourceTables iters (S i) targetTables rest
            (Fprint diff (SQLiteTable.String sourceTable +:+ nl))
      | Some targetTable =>
          subDiff ← SQLiteTable.DiffTable (iters i) sourceTable targetTable;
          let diff := Fprintln diff subDiff in
          subDiff ← SQLiteTable.DiffIndexes sourceTable targetTable;
          let diff := Fprintln diff subDiff in
          subDiff ← SQLiteTable.DiffTriggers sourceTable targetTable;
          let diff := Fprintln diff subDiff in
          diffSourceTables iters (S i) targetTables rest diff
      end
  end.

(** Second loop of [DiffTables]: tables of the target only. *)
Definition dropTargetTables (sourceTables targetTables : list SQLiteTable.t)
    (diff : Builder) : Builder :=
  foldl (λ diff targetTable,
           match find (λ t0, bool_decide (SQLiteTable.Name t0 = SQLiteTable.Name targetTable))
                      sourceTables with
           | None => Fprint diff (render (DropTable (SQLiteTable.Name targetTable)))
           | Some _ => diff
           end) diff targetTables.

Definition DiffTables (iters : nat → MapOrder) (env : Env) (d : t) : result string :=
  sourceTables ← GetTables env (SourceDatabaseConnection d);
  targetTables ← GetTables env (TargetDatabaseConnection d);
  diff ← diffSourceTables iters 0 targetTables sourceTables EmptyString;
  let diff := dropTargetTables sourceTables targetTables diff in
  Ok (TrimSpace diff).

Definition diffSourceViews (targetViews sourceViews : list SQLiteView.t)
    (diff : Builder) : result Builder :=
  foldl (λ acc sourceView,
           diff ← acc;
           match find (λ v, bool_decide (SQLiteView.Name v = SQLiteView.Name sourceView))
                      targetViews with
           | None => Ok (Fprint diff (SQLiteView.SQL sourceView +:+ ";" +:+ nl))
           | Some targetView =>
               subDiff ← SQLiteView.Diff sourceView targetView;
               Ok (Fprintln diff subDiff)
           end) (Ok diff) sourceViews.

Definition dropTargetViews (sourceViews targetViews : list SQLiteView.t)
    (diff : Builder) : Builder :=
  foldl (λ diff targetView,
           match find (λ v, bool_decide (SQLiteView.Name v = SQLiteView.Name targetView))
                      sourceViews with
           | None =>
               Fprint diff ("DROP VIEW " +:+ quoted (SQLiteView.Name targetView)
                            +:+ ";" +:+ nl)
           | Some _ => diff
           end) diff targetViews.

Definition DiffViews (env : Env) (d : t) : result string :=
  sourceViews ← GetViews env (SourceDatabaseConnection d);
  targetViews ← GetViews env (TargetDatabaseConnection d);
  diff ← diffSourceViews targetViews sourceViews EmptyString;
  let diff := dropTargetViews sourceViews targetViews diff in
  Ok (TrimSpace diff).

Definition Diff (iters : nat → MapOrder) (env : Env) (d : t) : result string :=
  let diff : Builder := EmptyString in
  subDiff ← DiffTables iters env d;
  let diff := Fprintln diff subDiff in
  subDiff ← DiffViews env d;
  let diff := Fprintln diff subDiff in
  Ok (TrimSpace diff).

End SQLiteDriver.

(** * PostgreSQL schema model and renderers *)

Module PostgresColumn.

Record t : Type := {
  Name : string;
  Type_ : string;
  NotNull : bool;
  Default : NullString;
}.

#[global] Instance eq_dec : EqDecision t.
Proof. solve_decision. Defined.

Definition withName (c : t) (name : string) : t :=
  {| Name := name; Type_ := Type_ c; NotNull := NotNull c; Default := Default c |}.

Definition HasEqualAttributes (c other : t) : bool :=
  let copy := withName c (Name other) in
  bool_decide (copy = other).

Definition String (c : t) : string :=
  let value := quoted (Name c) +:+ " " +:+ Type_ c in
  let value := if NotNull c then value +:+ " NOT NULL" else value in
  let value :=
    if Valid (Default c) then value +:+ " DEFAULT " +:+ String_ (Default c)
    else value in
  value.

End PostgresColumn.

Module PostgresConstraint.

Record t : Type := {
  Name : string;
  Type_ : string; (* p (primary), u (unique), c (check), f (foreign) *)
  Def : string;
}.

Definition String (c : t) : string :=
  "CONSTRAINT " +:+ quoted (Name c) +:+ " " +:+ Def c.

End PostgresConstraint.

Module PostgresView.

Record t : Type := { Name : string; Def : string }.

Definition String (v : t) : string :=
  "CREATE VIEW " +:+ quoted (Name v) +:+ " AS " +:+ Def v.

End PostgresView.

(** [PostgresIndex] and [PostgresTrigger] are declared in files that are not
  part of the sources at hand. The differ reads their fields [Name] and
  [Def] and calls their [String()] method, so these three are taken as
  the interface of an otherwise arbitrary type. *)
Module Definable.

Class t (A : Type) : Type := {
  Name : A → string;
  Def : A → string;
  String : A → string;
}.

End Definable.

Module PostgresTable.
Section Table.

Context {PostgresIndex PostgresTrigger : Type}.
Context `{!Definable.t PostgresIndex, !Definable.t PostgresTrigger}.

Record t : Type := {
  Name : string;
  Columns : list PostgresColumn.t;
  Indexes : list PostgresIndex;
  Constraints : list PostgresConstraint.t;
  Triggers : list PostgresTrigger;
}.

Definition ColumnByName (t0 : t) (name : string) : option PostgresColumn.t :=
  find (λ column, bool_decide (PostgresColumn.Name column = name)) (Columns t0).

Definition ConstraintByName (t0 : t) (name : string) : option PostgresConstraint.t :=
  find (λ c, bool_decide (PostgresConstraint.Name c = name)) (Constraints t0).

Definition IndexByName (t0 : t) (name : string) : option PostgresIndex :=
  find (λ i, bool_decide (Definable.Name i = name)) (Indexes t0).

Definition TriggerByName (t0 : t) (name : string) : option PostgresTrigger :=
  find (λ tr, bool_decide (Definable.Name tr = name)) (Triggers t0).

(** The statements for a source column that the target has too. *)
Definition alterColumnStmts (t0 : t) (sourceColumn targetColumn : PostgresColumn.t)
    : list Stmt :=
  if negb (PostgresColumn.HasEqualAttributes sourceColumn targetColumn) then
    (if bool_decide (PostgresColumn.Type_ sourceColumn ≠ PostgresColumn.Type_ targetColumn)
     then [AlterColumnType (Name t0) (PostgresColumn.Name sourceColumn)
                           (PostgresColumn.Type_ sourceColumn)]
     else [])
    ++ (if bool_decide (PostgresColumn.NotNull sourceColumn ≠ PostgresColumn.NotNull targetColumn)
        then
          if PostgresColumn.NotNull sourceColumn
          then [SetNotNull (Name t0) (PostgresColumn.Name sourceColumn)]
          else [DropNotNull (Name t0) (PostgresColumn.Name sourceColumn)]
        else [])
    ++ (if bool_decide (PostgresColumn.Default sourceColumn ≠ PostgresColumn.Default targetColumn)
        then
          if Valid (PostgresColumn.Default sourceColumn)
          then [SetDefault (Name t0) (PostgresColumn.Name sourceColumn)
                           (String_ (PostgresColumn.Default sourceColumn))]
          else [DropDefault (Name t0) (PostgresColumn.Name sourceColumn)]
        else [])
  else [].

(** Added or modified columns, then removed columns. *)
Definition columnStmts (t0 other : t) : list Stmt :=
  flat_map (λ sourceColumn,
              match ColumnByName other (PostgresColumn.Name sourceColumn) with
              | None => [AddColumn (Name t0) (PostgresColumn.String sourceColumn)]
              | Some targetColumn => alterColumnStmts t0 sourceColumn targetColumn
              end) (Columns t0)
  ++ flat_map (λ targetColumn,
                 match ColumnByName t0 (PostgresColumn.Name targetColumn) with
                 | None => [DropColumn (Name t0) (PostgresColumn.Name targetColumn)]
                 | Some _ => []
                 end) (Columns other).

Definition constraintStmts (t0 other : t) : list Stmt :=
  flat_map (λ sourceConstraint,
              match ConstraintByName other (PostgresConstraint.Name sourceConstraint) with
              | None => [AddConstraint (Name t0) (PostgresConstraint.String sourceConstraint)]
              | Some targetConstraint =>
                  if bool_decide (PostgresConstraint.Def sourceConstraint
                                  ≠ PostgresConstraint.Def targetConstraint)
                  then [DropConstraint (Name t0) (PostgresConstraint.Name targetConstraint);
                        AddConstraint (Name t0) (PostgresConstraint.String sourceConstraint)]
                  else []
              end) (Constraints t0)
  ++ flat_map (λ targetConstraint,
                 match ConstraintByName t0 (PostgresConstraint.Name targetConstraint) with
                 | None => [DropConstraint (Name t0) (PostgresConstraint.Name targetConstraint)]
                 | Some _ => []
                 end) (Constraints other).

Definition indexStmts (t0 other : t) : list Stmt :=
  flat_map (λ sourceIndex,
              match IndexByName other (Definable.Name sourceIndex) with
              | None => [CreateIndex (Definable.String sourceIndex)]
              | Some targetIndex =>
                  if bool_decide (Definable.Def sourceIndex ≠ Definable.Def targetIndex)
                  then [DropIndex (Definable.Name targetIndex);
                        CreateIndex (Definable.String sourceIndex)]
                  else []
              end) (Indexes t0)
  ++ flat_map (λ targetIndex,
                 match IndexByName t0 (Definable.Name targetIndex) with
                 | None => [DropIndex (Definable.Name targetIndex)]
                 | Some _ => []
                 end) (Indexes other).

Definition triggerStmts (t0 other : t) : list Stmt :=
  flat_map (λ sourceTrigger,
              match TriggerByName other (Definable.Name sourceTrigger) with
              | None => [CreateTrigger (Definable.String sourceTrigger)]
              | Some targetTrigger =>
                  if bool_decide (Definable.Def sourceTrigger ≠ Definable.Def targetTrigger)
                  then [DropTriggerOn (Definable.Name targetTrigger) (Name t0);
                        CreateTrigger (Definable.String sourceTrigger)]
                  else []
              end) (Triggers t0)
  ++ flat_map (λ targetTrigger,
                 match TriggerByName t0 (Definable.Name targetTrigger) with
                 | None => [DropTriggerOn (Definable.Name targetTrigger) (Name t0)]
                 | Some _ => []
                 end) (Triggers other).

(** The statements that [DiffTable] writes to its builder, in order. *)
Definition DiffTableStmts (t0 other : t) : list Stmt :=
  columnStmts t0 other ++ constraintStmts t0 other ++ indexStmts t0 other
  ++ triggerStmts t0 other.

Definition DiffTable (t0 other : t) : result string :=
  Ok (TrimSpace (written (DiffTableStmts t0 other))).

Definition StringCreateTable (t0 : t) : string :=
  let columnLines := (λ column, tab +:+ PostgresColumn.String column) <$> Columns t0 in
  let columnLines :=
    columnLines ++ ((λ c, tab +:+ PostgresConstraint.String c) <$> Constraints t0) in
  let createTableColumns := Join columnLines ("," +:+ nl) in
  "CREATE TABLE " +:+ quoted (Name t0) +:+ " (" +:+ nl +:+ createTableColumns
  +:+ nl +:+ ");".

Definition String (t0 : t) : string :=
  let str := StringCreateTable t0 in
  let str := foldl (λ str index, str +:+ nl +:+ Definable.String index) str (Indexes t0) in
  let str := foldl (λ str trigger, str +:+ nl +:+ Definable.String trigger) str (Triggers t0) in
  str.

End Table.
Arguments t : clear implicits.
End PostgresTable.

(** * PostgreSQL engine adapter *)

Module PostgresDriver.
Section Driver.

Context {PostgresIndex PostgresTrigger : Type}.
Context `{!Definable.t PostgresIndex, !Definable.t PostgresTrigger}.

Local Abbreviation Table := (PostgresTable.t PostgresIndex PostgresTrigger).

Record t : Type := {
  SourceDatabaseConnection : sql.DB;
  TargetDatabaseConnection : sql.DB;
}.

Definition Env := sql.Env Table PostgresView.t.

Definition GetTables (env : Env) (db : sql.DB) : result (list Table) :=
  sql.catalogTables env db.

Definition GetViews (env : Env) (db : sql.DB) : result (list PostgresView.t) :=
  sql.catalogViews env db.

Definition diffSourceViews (targetViews sourceViews : list PostgresView.t)
    (diff : Builder) : Builder :=
  foldl (λ diff sourceView,
           match find (λ v, bool_decide (PostgresView.Name v = PostgresView.Name sourceView))
                      targetViews with
           | None => Fprint diff (PostgresView.String sourceView +:+ nl)
           | Some targetView =>
               if bool_decide (PostgresView.Def sourceView ≠ PostgresView.Def targetView)
               then Fprint (Fprint diff ("DROP VIEW " +:+ quoted (PostgresView.Name targetView)
                                         +:+ ";" +:+ nl))
                           (PostgresView.String sourceView +:+ nl)
               else diff
           end) diff sourceViews.

Definition dropTargetViews (sourceViews targetViews : list PostgresView.t)
    (diff : Builder) : Builder :=
  foldl (λ diff targetView,
           match find (λ v, bool_decide (PostgresView.Name v = PostgresView.Name targetView))
                      sourceViews with
           | None =>
               Fprint diff ("DROP VIEW " +:+ quoted (PostgresView.Name targetView)
                            +:+ ";" +:+ nl)
           | Some _ => diff
           end) diff targetViews.

Definition DiffViews (env : Env) (d : t) : result string :=
  sourceViews ← GetViews env (SourceDatabaseConnection d);
  targetViews ← GetViews env (TargetDatabaseConnection d);
  let diff := diffSourceViews targetViews sourceViews EmptyString in
  let diff := dropTargetViews sourceViews targetViews diff in
  Ok (TrimSpace diff).

Definition diffSourceTables (targetTables sourceTables : list Table)
    (diff : Builder) : result Builder :=
  foldl (λ acc sourceTable,
           diff ← acc;
           match find (λ t0, bool_decide (PostgresTable.Name t0 = PostgresTable.Name sourceTable))
                      targetTables with
           | None => Ok (Fprint diff (PostgresTable.String sourceTable +:+ nl))
           | Some targetTable =>
               subDiff ← PostgresTable.DiffTable sourceTable targetTable;
               Ok (Fprintln diff subDiff)
           end) (Ok diff) sourceTables.

Definition dropTargetTables (sourceTables targetTables : list Table)
    (diff : Builder) : Builder :=
  foldl (λ diff targetTable,
           match find (λ t0, bool_decide (PostgresTable.Name t0 = PostgresTable.Name targetTable))
                      sourceTables with
           | None => Fprint diff (render (DropTable (PostgresTable.Name targetTable)))
           | Some _ => diff
           end) diff targetTables.

Definition DiffTables (env : Env) (d : t) : result string :=
  sourceTables ← GetTables env (SourceDatabaseConnection d);
  targetTables ← GetTables env (TargetDatabaseConnection d);
  diff ← diffSourceTables targetTables sourceTables EmptyString;
  let diff := dropTargetTables sourceTables targetTables diff in
  subDiff ← DiffViews env d;
  let diff := Fprintln diff subDiff in
  Ok (TrimSpace diff).

Definition Diff (env : Env) (d : t) : result string :=
  let diff : Builder := EmptyString in
  subDiff ← DiffTables env d;
  let diff := Fprintln diff subDiff in
  Ok (TrimSpace diff).

End Driver.
End PostgresDriver.

(** * Notions of the specification *)

(** Names are the identity of tables, columns, indexes, triggers and views
    (section 3 of the specification): a schema model is well formed when
    they are unique within their scope. *)
Definition SQLiteTable_wf (t0 : SQLiteTable.t) : Prop :=
  NoDup (SQLiteColumn.Name <$> SQLiteTable.Columns t0)
  ∧ NoDup (SQLiteIndex.Name <$> SQLiteTable.Indexes t0)
  ∧ NoDup (SQLiteTrigger.Name <$> SQLiteTable.Triggers t0).

Definition SQLiteSchema_wf (tables : list SQLiteTable.t) (views : list SQLiteView.t) : Prop :=
  NoDup (SQLiteTable.Name <$> tables)
  ∧ Forall SQLiteTable_wf tables
  ∧ NoDup (SQLiteView.Name <$> views).

Definition PostgresTable_wf {I T} `{!Definable.t I, !Definable.t T}
    (t0 : PostgresTable.t I T) : Prop :=
  NoDup (PostgresColumn.Name <$> PostgresTable.Columns t0)
  ∧ NoDup (PostgresConstraint.Name <$> PostgresTable.Constraints t0)
  ∧ NoDup (Definable.Name <$> PostgresTable.Indexes t0)
  ∧ NoDup (Definable.Name <$> PostgresTable.Triggers t0).

Definition PostgresSchema_wf {I T} `{!Definable.t I, !Definable.t T}
    (tables : list (PostgresTable.t I T)) (views : list PostgresView.t) : Prop :=
  NoDup (PostgresTable.Name <$> tables)
  ∧ Forall PostgresTable_wf tables
  ∧ NoDup (PostgresView.Name <$> views).

(** A column of that name exists in the table. *)
Definition hasColumnNamed (t0 : SQLiteTable.t) (name : string) : Prop :=
  ∃ c, c ∈ SQLiteTable.Columns t0 ∧ SQLiteColumn.Name c = name.

(** The SELECT expression that step 3 of the rebuild protocol pairs with a
    new column [ci], in the words of the specification; [renamed] maps old
    names to new names. *)
Inductive SelectExpr (target : SQLiteTable.t) (renamed : gmap string string)
    (ci : SQLiteColumn.t) : string → Prop :=
| SelectSameName :
    hasColumnNamed target (SQLiteColumn.Name ci) →
    SelectExpr target renamed ci (quoted (SQLiteColumn.Name ci))
| SelectOldName (old_name : string) :
    ¬ hasColumnNamed target (SQLiteColumn.Name ci) →
    renamed !! old_name = Some (SQLiteColumn.Name ci) →
    SelectExpr target renamed ci (quoted old_name)
| SelectDefault :
    ¬ hasColumnNamed target (SQLiteColumn.Name ci) →
    (∀ old_name, renamed !! old_name ≠ Some (SQLiteColumn.Name ci)) →
    Valid (SQLiteColumn.Default ci) = true →
    SelectExpr target renamed ci (String_ (SQLiteColumn.Default ci))
| SelectNull :
    ¬ hasColumnNamed target (SQLiteColumn.Name ci) →
    (∀ old_name, renamed !! old_name ≠ Some (SQLiteColumn.Name ci)) →
    Valid (SQLiteColumn.Default ci) = false →
    SelectExpr target renamed ci "NULL".

(** The foreign-key sets differ: different sizes, or a source foreign key
    that is structurally equal to no target foreign key. *)
Definition foreignKeySetsDiffer (source target : SQLiteTable.t) : Prop :=
  length (SQLiteTable.ForeignKeys source) ≠ length (SQLiteTable.ForeignKeys target)
  ∨ ∃ fk, fk ∈ SQLiteTable.ForeignKeys source
          ∧ ∀ fk', fk' ∈ SQLiteTable.ForeignKeys target → fk' ≠ fk.

(** The statements of the rebuild protocol for table [t0], given the
    SELECT expressions of its INSERT. *)
Definition rebuildProtocol (t0 : SQLiteTable.t) (exprs : list string) : list Stmt :=
  [ CreateTable (SQLiteTable.StringCreateTable (SQLiteTable.tempTable t0));
    InsertSelect (SQLiteTable.Name (SQLiteTable.tempTable t0))
                 ((λ c, quoted (SQLiteColumn.Name c)) <$> SQLiteTable.Columns t0)
                 exprs (SQLiteTable.Name t0);
    DropTable (SQLiteTable.Name t0);
    RenameTable (SQLiteTable.Name (SQLiteTable.tempTable t0)) (SQLiteTable.Name t0) ]
  ++ ((λ idx, CreateIndex (SQLiteIndex.String idx)) <$> SQLiteTable.Indexes t0).

(** The allowlist of types between which a change is compatible. *)
Definition compatibleTypeNames : list string := ["TEXT"; "INTEGER"; "REAL"; "BLOB"].

(** Statements that rename a column, and statements that replace a table
    by a copy. *)
Definition isRenameColumn (s : Stmt) : bool :=
  match s with
  | RenameColumn _ _ _ => true
  | _ => false
  end.

Definition replacesTable (s : Stmt) : bool :=
  match s with
  | CreateTable _ | InsertSelect _ _ _ _ | DropTable _ | RenameTable _ _ => true
  | _ => false
  end.

(** A string of white space only. *)
Definition blank (s : string) : Prop :=
  Forall (λ c, asciiSpace c = true) (list_ascii_of_string s).

(** The state of [DiffColumns] after its first and after its second loop. *)
Definition afterSourceColumns (t0 other : SQLiteTable.t) : SQLiteTable.ColumnsDiff :=
  foldl (SQLiteTable.diffSourceColumn t0 other) SQLiteTable.emptyDiff (SQLiteTable.Columns t0).

Definition afterTargetColumns (t0 other : SQLiteTable.t) : SQLiteTable.ColumnsDiff :=
  foldl (SQLiteTable.diffTargetColumn t0) (afterSourceColumns t0 other) (SQLiteTable.Columns other).

(** One classification extends another: the lists [Added], [Modified] and
    [Removed] only grow while [DiffColumns] runs. *)
Definition diff_le (d d' : SQLiteTable.ColumnsDiff) : Prop :=
  SQLiteTable.Added d ⊆ SQLiteTable.Added d'
  ∧ SQLiteTable.Modified d ⊆ SQLiteTable.Modified d'
  ∧ SQLiteTable.Removed d ⊆ SQLiteTable.Removed d'.

(** * Example schemas *)

Definition noDefault : NullString := {| String_ := EmptyString; Valid := false |}.

Definition withDefault (expr : string) : NullString :=
  {| String_ := expr; Valid := true |}.

Definition column (name type : string) : SQLiteColumn.t :=
  {| SQLiteColumn.Name := name; SQLiteColumn.Type_ := type;
     SQLiteColumn.NotNull := false; SQLiteColumn.PrimaryKey := false;
     SQLiteColumn.Default := noDefault |}.

(** [id INTEGER PRIMARY KEY] and [<name> TEXT NOT NULL]. *)
Definition keyColumn : SQLiteColumn.t :=
  {| SQLiteColumn.Name := "id"; SQLiteColumn.Type_ := "INTEGER";
     SQLiteColumn.NotNull := false; SQLiteColumn.PrimaryKey := true;
     SQLiteColumn.Default := noDefault |}.

Definition requiredText (name : string) : SQLiteColumn.t :=
  {| SQLiteColumn.Name := name; SQLiteColumn.Type_ := "TEXT";
     SQLiteColumn.NotNull := true; SQLiteColumn.PrimaryKey := false;
     SQLiteColumn.Default := noDefault |}.

Definition table (name : string) (columns : list SQLiteColumn.t) : SQLiteTable.t :=
  {| SQLiteTable.Name := name; SQLiteTable.Columns := columns;
     SQLiteTable.Indexes := []; SQLiteTable.Triggers := [];
     SQLiteTable.ForeignKeys := [] |}.

(** The runtime enumerates every map in key order, or in reverse key order. *)
Definition inKeyOrder : MapOrder := map_to_list.
Definition inReverseKeyOrder : MapOrder := λ m, reverse (map_to_list m).

(** Two connections: the source database and the target database. *)
Definition sourceDB : sql.DB := {| sql.dataSourceName := "source.sqlite" |}.
Definition targetDB : sql.DB := {| sql.dataSourceName := "target.sqlite" |}.

Definition sqliteDriver : SQLiteDriver.t :=
  {| SQLiteDriver.SourceDatabaseConnection := sourceDB;
     SQLiteDriver.TargetDatabaseConnection := targetDB |}.

(** An environment in which no call fails, the source database holds
    [source] and the target database holds [target]. *)
Definition sqliteEnv (source target : list SQLiteTable.t) (views : list SQLiteView.t)
    : SQLiteDriver.Env :=
  {| sql.openError := λ _, None;
     sql.closeError := λ _, None;
     sql.catalogTables := λ db, Ok (if bool_decide (db = sourceDB) then source else target);
     sql.catalogViews := λ _, Ok views |}.

(** [users] with an index, a trigger and a foreign key, and a view on it. *)
Definition usersTable : SQLiteTable.t :=
  {| SQLiteTable.Name := "users";
     SQLiteTable.Columns :=
       [ keyColumn;
         requiredText "name";
         column "team_id" "INTEGER" ];
     SQLiteTable.Indexes :=
       [ {| SQLiteIndex.Table := "users"; SQLiteIndex.Name := "users_name";
            SQLiteIndex.Columns := ["name"]; SQLiteIndex.Unique := true |} ];
     SQLiteTable.Triggers :=
       [ {| SQLiteTrigger.Name := "users_update";
            SQLiteTrigger.SQL := "CREATE TRIGGER users_update AFTER UPDATE ON users BEGIN SELECT 1; END" |} ];
     SQLiteTable.ForeignKeys :=
       [ {| SQLiteForeignKey.Table := "teams"; SQLiteForeignKey.From := ["team_id"];
            SQLiteForeignKey.To := ["id"]; SQLiteForeignKey.OnUpdate := "NO ACTION";
            SQLiteForeignKey.OnDelete := "CASCADE" |} ] |}.

Definition usersView : SQLiteView.t :=
  {| SQLiteView.Name := "user_names";
     SQLiteView.SQL := "CREATE VIEW user_names AS SELECT name FROM users" |}.

(** [price] changes between two types outside the allowlist. *)
Definition pricesNew : SQLiteTable.t := table "prices" [column "price" "NUMERIC"].
Definition pricesOld : SQLiteTable.t := table "prices" [column "price" "VARCHAR"].

(** The same change next to a compatible change of [label]. *)
Definition pricesLabelNew : SQLiteTable.t :=
  table "prices" [column "price" "NUMERIC"; column "label" "TEXT"].
Definition pricesLabelOld : SQLiteTable.t :=
  table "prices" [column "price" "VARCHAR"; column "label" "BLOB"].

(** [users]: [name] becomes [full_name], [age] changes its type, [email]
    arrives with a default and [nick] without one. *)
Definition usersOld : SQLiteTable.t :=
  table "users"
    [ keyColumn;
      requiredText "name";
      column "age" "TEXT" ].

Definition usersNew : SQLiteTable.t :=
  table "users"
    [ keyColumn;
      requiredText "full_name";
      column "age" "INTEGER";
      {| SQLiteColumn.Name := "email"; SQLiteColumn.Type_ := "TEXT";
         SQLiteColumn.NotNull := false; SQLiteColumn.PrimaryKey := false;
         SQLiteColumn.Default := withDefault "'none'" |};
      column "nick" "VARCHAR" ].

(** [usersTable] before its foreign key was declared. *)
Definition usersWithoutForeignKey : SQLiteTable.t :=
  {| SQLiteTable.Name := SQLiteTable.Name usersTable;
     SQLiteTable.Columns := SQLiteTable.Columns usersTable;
     SQLiteTable.Indexes := SQLiteTable.Indexes usersTable;
     SQLiteTable.Triggers := SQLiteTable.Triggers usersTable;
     SQLiteTable.ForeignKeys := [] |}.

(** [name] is split into [first_name] and [last_name]. *)
Definition namesOld : SQLiteTable.t := table "users" [column "name" "TEXT"].
Definition namesNew : SQLiteTable.t :=
  table "users" [column "first_name" "TEXT"; column "last_name" "TEXT"].

(** Two columns with the same attributes are renamed: [a] to [x] and [b]
    to [y]. *)
Definition twinsOld : SQLiteTable.t := table "t" [column "a" "TEXT"; column "b" "TEXT"].
Definition twinsNew : SQLiteTable.t := table "t" [column "x" "TEXT"; column "y" "TEXT"].

(** Two columns are renamed: [a] to [x] and [b] to [y]. *)
Definition pairOld : SQLiteTable.t := table "t" [column "a" "TEXT"; column "b" "INTEGER"].
Definition pairNew : SQLiteTable.t := table "t" [column "x" "TEXT"; column "y" "INTEGER"].

(** Closing the source connection fails. *)
Definition sourceCloseFails : SQLiteDriver.Env :=
  {| sql.openError := λ _, None;
     sql.closeError := λ db, if bool_decide (db = sourceDB) then Some "database is locked" else None;
     sql.catalogTables := λ _, Ok [];
     sql.catalogViews := λ _, Ok [] |}.

(** Opening the target database fails. *)
Definition targetOpenFails : SQLiteDriver.Env :=
  {| sql.openError := λ dsn, if bool_decide (dsn = "target.sqlite")
                             then Some "unable to open database file" else None;
     sql.closeError := λ _, None;
     sql.catalogTables := λ _, Ok [];
     sql.catalogViews := λ _, Ok [] |}.

Definition sqliteConfig : SQLiteDriver.SQLLiteDriverConfig :=
  {| SQLiteDriver.SourceDatabasePath := "source.sqlite";
     SQLiteDriver.TargetDatabasePath := "target.sqlite" |}.

(** The tables of [TestSQLiteDriver]: CreateTables, RenameColumn and
    ModifyColumnType. *)
Definition testUsers : SQLiteTable.t := table "users" [keyColumn; requiredText "name"].
Definition testUsersFullName : SQLiteTable.t :=
  table "users" [keyColumn; requiredText "full_name"].
Definition testUsersAge (type : string) : SQLiteTable.t :=
  table "users" [keyColumn; requiredText "name"; column "age" type].

(** An index or trigger that is its name and its definition, rendered as
    the definition followed by a semicolon. *)
Record NamedDef : Type := { defName : string; defText : string }.

#[global] Instance NamedDef_definable : Definable.t NamedDef :=
  {| Definable.Name := defName; Definable.Def := defText;
     Definable.String := λ o, defText o +:+ ";" |}.

Definition pgColumn (name type : string) : PostgresColumn.t :=
  {| PostgresColumn.Name := name; PostgresColumn.Type_ := type;
     PostgresColumn.NotNull := false; PostgresColumn.Default := noDefault |}.

Definition pgTable (name : string) (columns : list PostgresColumn.t)
    : PostgresTable.t NamedDef NamedDef :=
  {| PostgresTable.Name := name; PostgresTable.Columns := columns;
     PostgresTable.Indexes := []; PostgresTable.Constraints := [];
     PostgresTable.Triggers := [] |}.

Definition pgUsers : PostgresTable.t NamedDef NamedDef :=
  {| PostgresTable.Name := "users";
     PostgresTable.Columns := [pgColumn "id" "integer"; pgColumn "name" "text"];
     PostgresTable.Indexes :=
       [ {| defName := "users_name";
            defText := "CREATE INDEX users_name ON users USING btree (name)" |} ];
     PostgresTable.Constraints :=
       [ {| PostgresConstraint.Name := "users_pkey"; PostgresConstraint.Type_ := "p";
            PostgresConstraint.Def := "PRIMARY KEY (id)" |} ];
     PostgresTable.Triggers := [] |}.

(** [name] is renamed to [full_name], with the same attributes. *)
Definition pgUsersOld : PostgresTable.t NamedDef NamedDef :=
  pgTable "users" [pgColumn "id" "integer"; pgColumn "name" "text"].
Definition pgUsersNew : PostgresTable.t NamedDef NamedDef :=
  pgTable "users" [pgColumn "id" "integer"; pgColumn "full_name" "text"].

Definition pgView : PostgresView.t :=
  {| PostgresView.Name := "user_names"; PostgresView.Def := "SELECT name FROM users;" |}.

Definition postgresDriver : PostgresDriver.t :=
  {| PostgresDriver.SourceDatabaseConnection := sourceDB;
     PostgresDriver.TargetDatabaseConnection := targetDB |}.

Definition postgresEnv (source target : list (PostgresTable.t NamedDef NamedDef))
    (views : list PostgresView.t) : PostgresDriver.Env :=
  {| sql.openError := λ _, None;
     sql.closeError := λ _, None;
     sql.catalogTables := λ db, Ok (if bool_decide (db = sourceDB) then source else target);
     sql.catalogViews := λ _, Ok views |}.

(** * Auxiliary results *)

Section Lists.
Context {A : Type}.

Lemma find_by_name (name : A → string) (l : list A) (x : A) :
  NoDup (name <$> l) → x ∈ l →
  find (λ y, bool_decide (name y = name x)) l = Some x.
Proof.
  induction l as [|a l IH]; intros Hnd Hin.
  - by apply elem_of_nil in Hin.
  - apply NoDup_cons in Hnd as [Hfresh Hnd]. cbn.
    apply elem_of_cons in Hin as [->|Hin].
    + by rewrite bool_decide_eq_true_2.
    + rewrite bool_decide_eq_false_2; [by apply IH|].
      intros Heq. apply Hfresh. rewrite Heq. by apply list_elem_of_fmap_2.
Qed.

Lemma find_none_iff (p : A → bool) (l : list A) :
  find p l = None ↔ ∀ x, x ∈ l → p x = false.
Proof.
  induction l as [|a l IH]; cbn.
  - split; [|done]. intros _ x Hx. by apply elem_of_nil in Hx.
  - destruct (p a) eqn:Hp.
    + split; [done|]. intros H. specialize (H a (list_elem_of_here _ _)). congruence.
    + rewrite IH. split.
      * intros H x [->|Hx]%elem_of_cons; auto.
      * intros H x Hx. apply H. by apply list_elem_of_further.
Qed.

Lemma find_some_elem (p : A → bool) (l : list A) (x : A) :
  find p l = Some x → x ∈ l ∧ p x = true.
Proof.
  intros H. apply find_some in H as [Hin Hp]. split; [|done].
  by apply list_elem_of_In.
Qed.

Lemma foldl_fixed {B} (f : B → A → B) (b : B) (l : list A) :
  (∀ x, x ∈ l → f b x = b) → foldl f b l = b.
Proof.
  induction l as [|a l IH]; intros H; cbn; [done|].
  rewrite H; [|apply list_elem_of_here].
  apply IH. intros x Hx. apply H. by apply list_elem_of_further.
Qed.

Lemma flat_map_nil {B} (f : A → list B) (l : list A) :
  (∀ x, x ∈ l → f x = []) → flat_map f l = [].
Proof.
  induction l as [|a l IH]; intros H; cbn; [done|].
  rewrite H; [|apply list_elem_of_here].
  apply IH. intros x Hx. apply H. by apply list_elem_of_further.
Qed.

End Lists.

Lemma sameElements_refl (a : list string) : sameElements a a = true.
Proof.
  unfold sameElements. apply forallb_forall. intros i _.
  by apply bool_decide_eq_true_2.
Qed.

Lemma sameElements_eq (a b : list string) :
  length a = length b → sameElements a b = true → a = b.
Proof.
  intros Hlen Hsame. apply list_eq. intros i.
  destruct (decide (i < length a)) as [Hi|Hi].
  - unfold sameElements in Hsame. rewrite forallb_forall in Hsame.
    specialize (Hsame i). rewrite in_seq, bool_decide_eq_true in Hsame.
    apply Hsame. lia.
  - rewrite !lookup_ge_None_2; [done|lia|lia].
Qed.

(** ** White space *)

Lemma list_ascii_of_string_app (a b : string) :
  list_ascii_of_string (a +:+ b) = list_ascii_of_string a ++ list_ascii_of_string b.
Proof. induction a as [|c a IH]; simpl; [done|]. f_equal. exact IH. Qed.

Lemma blank_empty : blank EmptyString.
Proof. constructor. Qed.

Lemma blank_nl : blank nl.
Proof. repeat constructor. Qed.

Lemma blank_app (a b : string) : blank a → blank b → blank (a +:+ b).
Proof.
  unfold blank. rewrite list_ascii_of_string_app. apply Forall_app_2.
Qed.

Lemma blank_Fprintln (diff : Builder) : blank diff → blank (Fprintln diff EmptyString).
Proof.
  intros H. unfold Fprintln. apply blank_app; [done|]. apply blank_nl.
Qed.

Lemma trimFront_blank (back : bool) (l : list ascii) :
  Forall (λ c, asciiSpace c = true) l → trimFront back l = [].
Proof.
  induction 1 as [|c l Hc _ IH]; simpl; [done|]. rewrite Hc. exact IH.
Qed.

Lemma TrimSpace_blank (s : string) : blank s → TrimSpace s = EmptyString.
Proof.
  intros H. unfold TrimSpace. rewrite (trimFront_blank false) by exact H. reflexivity.
Qed.

Lemma append_empty_r (s : string) : s +:+ EmptyString = s.
Proof.
  induction s as [|c s IH]; [done|].
  change (String c (s +:+ EmptyString) = String c s). by rewrite IH.
Qed.

Lemma existsb_false_iff {A} (p : A → bool) (l : list A) :
  existsb p l = false ↔ ∀ x, x ∈ l → p x = false.
Proof.
  induction l as [|a l IH]; cbn.
  - split; [|done]. intros _ x Hx. by apply elem_of_nil in Hx.
  - rewrite orb_false_iff, IH. split.
    + intros [Ha Hl] x [->|Hx]%elem_of_cons; auto.
    + intros H. split; [apply H, list_elem_of_here|].
      intros x Hx. by apply H, list_elem_of_further.
Qed.

Lemma existsb_true_elem {A} (p : A → bool) (l : list A) :
  existsb p l = true ↔ ∃ x, x ∈ l ∧ p x = true.
Proof.
  rewrite existsb_exists. split; intros (x & Hx & Hp); exists x;
    (split; [by apply list_elem_of_In|done]).
Qed.

Lemma valid_order_empty (iter : MapOrder) : valid_order iter → iter ∅ = [].
Proof.
  intros Hv. apply Permutation_nil_r. by rewrite (Hv ∅), map_to_list_empty.
Qed.

(** ** A table diffed against itself *)

Lemma SQLiteForeignKey_Equal_refl (fk : SQLiteForeignKey.t) :
  SQLiteForeignKey.Equal fk fk = true.
Proof.
  unfold SQLiteForeignKey.Equal.
  repeat case_bool_decide; try done.
  by rewrite !sameElements_refl.
Qed.

Lemma SQLiteForeignKey_Equal_eq (fk other : SQLiteForeignKey.t) :
  SQLiteForeignKey.Equal fk other = true ↔ fk = other.
Proof.
  split; [|intros ->; apply SQLiteForeignKey_Equal_refl].
  unfold SQLiteForeignKey.Equal.
  repeat case_bool_decide; cbn; try done.
  destruct (sameElements (SQLiteForeignKey.From fk) (SQLiteForeignKey.From other)) eqn:Hfrom;
    [|done].
  destruct (sameElements (SQLiteForeignKey.To fk) (SQLiteForeignKey.To other)) eqn:Hto;
    [|done].
  intros _. destruct fk, other; cbn in *. subst.
  f_equal; by apply sameElements_eq.
Qed.

Lemma SQLiteIndex_Equal_refl (i : SQLiteIndex.t) : SQLiteIndex.Equal i i = true.
Proof.
  unfold SQLiteIndex.Equal.
  repeat case_bool_decide; try done.
  by rewrite sameElements_refl.
Qed.

Lemma SQLiteTable_ColumnByName_self (t0 : SQLiteTable.t) (c : SQLiteColumn.t) :
  NoDup (SQLiteColumn.Name <$> SQLiteTable.Columns t0) →
  c ∈ SQLiteTable.Columns t0 →
  SQLiteTable.ColumnByName t0 (SQLiteColumn.Name c) = Some c.
Proof. intros. by apply find_by_name. Qed.

Lemma foreignKeysChanged_self (t0 : SQLiteTable.t) :
  SQLiteTable.foreignKeysChanged t0 t0 = false.
Proof.
  unfold SQLiteTable.foreignKeysChanged.
  rewrite bool_decide_eq_false_2 by (intros H; by apply H).
  apply existsb_false_iff. intros fk Hfk.
  apply negb_false_iff, existsb_true_elem. exists fk.
  split; [done|apply SQLiteForeignKey_Equal_refl].
Qed.

Lemma DiffColumns_self (t0 : SQLiteTable.t) :
  NoDup (SQLiteColumn.Name <$> SQLiteTable.Columns t0) →
  SQLiteTable.DiffColumns t0 t0 = SQLiteTable.emptyDiff.
Proof.
  intros Hnd. unfold SQLiteTable.DiffColumns.
  rewrite foreignKeysChanged_self.
  rewrite (foldl_fixed (SQLiteTable.diffSourceColumn t0 t0)).
  - apply foldl_fixed. intros c Hc. unfold SQLiteTable.diffTargetColumn.
    rewrite SQLiteTable_ColumnByName_self by done.
    by rewrite bool_decide_eq_true_2.
  - intros c Hc. unfold SQLiteTable.diffSourceColumn.
    rewrite SQLiteTable_ColumnByName_self by done.
    by rewrite bool_decide_eq_true_2.
Qed.

Lemma SQLite_DiffTable_self (iter : MapOrder) (t0 : SQLiteTable.t) :
  valid_order iter →
  NoDup (SQLiteColumn.Name <$> SQLiteTable.Columns t0) →
  SQLiteTable.DiffTable iter t0 t0 = Ok EmptyString.
Proof.
  intros Hv Hnd. unfold SQLiteTable.DiffTable, SQLiteTable.DiffTableStmts.
  rewrite DiffColumns_self by done. cbn.
  by rewrite valid_order_empty.
Qed.

Lemma SQLite_DiffIndexes_self (t0 : SQLiteTable.t) :
  NoDup (SQLiteIndex.Name <$> SQLiteTable.Indexes t0) →
  SQLiteTable.DiffIndexesStmts t0 t0 = [].
Proof.
  intros Hnd. unfold SQLiteTable.DiffIndexesStmts.
  rewrite !flat_map_nil; [done|..]; intros i Hi; unfold SQLiteTable.IndexByName;
    rewrite find_by_name by done; [done|].
  by rewrite SQLiteIndex_Equal_refl.
Qed.

Lemma SQLite_DiffTriggers_self (t0 : SQLiteTable.t) :
  NoDup (SQLiteTrigger.Name <$> SQLiteTable.Triggers t0) →
  SQLiteTable.DiffTriggersStmts t0 t0 = [].
Proof.
  intros Hnd. unfold SQLiteTable.DiffTriggersStmts.
  rewrite !flat_map_nil; [done|..]; intros i Hi; unfold SQLiteTable.TriggerByName;
    rewrite find_by_name by done; [done|].
  by rewrite bool_decide_eq_false_2 by (intros H; by apply H).
Qed.

(** ** A database diffed against itself *)

Lemma SQLite_diffSourceTables_self (iters : nat → MapOrder)
    (tables rest : list SQLiteTable.t) (i : nat) (diff : Builder) :
  (∀ i, valid_order (iters i)) →
  NoDup (SQLiteTable.Name <$> tables) →
  Forall SQLiteTable_wf tables →
  rest ⊆ tables →
  blank diff →
  ∃ diff', SQLiteDriver.diffSourceTables iters i tables rest diff = Ok diff' ∧ blank diff'.
Proof.
  intros Hv Hnd Hwf. revert i diff.
  induction rest as [|t0 rest IH]; intros i diff Hsub Hb; cbn.
  - by exists diff.
  - assert (t0 ∈ tables) as Hin by (apply Hsub, list_elem_of_here).
    rewrite (find_by_name SQLiteTable.Name) by done.
    rewrite Forall_forall in Hwf. destruct (Hwf t0 Hin) as (Hc & Hi & Ht).
    rewrite SQLite_DiffTable_self by done. cbn.
    rewrite SQLite_DiffIndexes_self, SQLite_DiffTriggers_self by done.
    change (written []) with EmptyString.
    apply IH.
    + intros x Hx. by apply Hsub, list_elem_of_further.
    + by do 3 apply blank_Fprintln.
Qed.

Lemma SQLite_dropTargetTables_self (tables : list SQLiteTable.t) (diff : Builder) :
  NoDup (SQLiteTable.Name <$> tables) →
  SQLiteDriver.dropTargetTables tables tables diff = diff.
Proof.
  intros Hnd. apply foldl_fixed. intros t0 Hin.
  by rewrite (find_by_name SQLiteTable.Name).
Qed.

Lemma SQLiteView_Diff_self (v : SQLiteView.t) : SQLiteView.Diff v v = Ok EmptyString.
Proof.
  unfold SQLiteView.Diff. by rewrite bool_decide_eq_false_2 by (intros H; by apply H).
Qed.

Lemma SQLite_diffSourceViews_self (views rest : list SQLiteView.t) (diff : Builder) :
  NoDup (SQLiteView.Name <$> views) →
  rest ⊆ views →
  blank diff →
  ∃ diff', SQLiteDriver.diffSourceViews views rest diff = Ok diff' ∧ blank diff'.
Proof.
  intros Hnd. unfold SQLiteDriver.diffSourceViews. revert diff.
  induction rest as [|v rest IH]; intros diff Hsub Hb; cbn [foldl].
  - by exists diff.
  - cbn [mbind result_bind].
    rewrite (find_by_name SQLiteView.Name), SQLiteView_Diff_self;
      [|done|apply Hsub, list_elem_of_here].
    cbn [mbind result_bind]. apply IH.
    + intros x Hx. by apply Hsub, list_elem_of_further.
    + by apply blank_Fprintln.
Qed.

Lemma SQLite_dropTargetViews_self (views : list SQLiteView.t) (diff : Builder) :
  NoDup (SQLiteView.Name <$> views) →
  SQLiteDriver.dropTargetViews views views diff = diff.
Proof.
  intros Hnd. apply foldl_fixed. intros v Hin.
  by rewrite (find_by_name SQLiteView.Name).
Qed.

Lemma SQLiteDriver_Diff_self (iters : nat → MapOrder) (env : SQLiteDriver.Env)
    (d : SQLiteDriver.t) (tables : list SQLiteTable.t) (views : list SQLiteView.t) :
  (∀ i, valid_order (iters i)) →
  SQLiteDriver.GetTables env (SQLiteDriver.SourceDatabaseConnection d) = Ok tables →
  SQLiteDriver.GetTables env (SQLiteDriver.TargetDatabaseConnection d) = Ok tables →
  SQLiteDriver.GetViews env (SQLiteDriver.SourceDatabaseConnection d) = Ok views →
  SQLiteDriver.GetViews env (SQLiteDriver.TargetDatabaseConnection d) = Ok views →
  SQLiteSchema_wf tables views →
  SQLiteDriver.Diff iters env d = Ok EmptyString.
Proof.
  intros Hv Hst Htt Hsv Htv (Hnd & Hwf & Hndv).
  unfold SQLiteDriver.Diff, SQLiteDriver.DiffTables, SQLiteDriver.DiffViews.
  rewrite Hst, Htt, Hsv, Htv. cbn.
  destruct (SQLite_diffSourceTables_self iters tables tables 0 EmptyString)
    as (diff1 & -> & Hb1); [done..|apply blank_empty|].
  destruct (SQLite_diffSourceViews_self views views EmptyString)
    as (diff2 & -> & Hb2); [done..|apply blank_empty|].
  cbn. rewrite SQLite_dropTargetTables_self, SQLite_dropTargetViews_self by done.
  by rewrite (TrimSpace_blank diff1), (TrimSpace_blank diff2).
Qed.

Section PostgresSelf.
Context {PostgresIndex PostgresTrigger : Type}.
Context `{!Definable.t PostgresIndex, !Definable.t PostgresTrigger}.

Local Abbreviation PgTable := (PostgresTable.t PostgresIndex PostgresTrigger).

Lemma PostgresColumn_HasEqualAttributes_refl (c : PostgresColumn.t) :
  PostgresColumn.HasEqualAttributes c c = true.
Proof. destruct c. by apply bool_decide_eq_true_2. Qed.

Lemma Postgres_DiffTableStmts_self (t0 : PgTable) :
  PostgresTable_wf t0 → PostgresTable.DiffTableStmts t0 t0 = [].
Proof.
  intros (Hc & Hk & Hi & Ht).
  unfold PostgresTable.DiffTableStmts, PostgresTable.columnStmts,
    PostgresTable.constraintStmts, PostgresTable.indexStmts, PostgresTable.triggerStmts.
  rewrite !flat_map_nil; [done|..]; intros x Hx.
  - unfold PostgresTable.TriggerByName.
    by rewrite (find_by_name Definable.Name).
  - unfold PostgresTable.TriggerByName.
    rewrite (find_by_name Definable.Name) by done.
    by rewrite bool_decide_eq_false_2 by (intros Hne; by apply Hne).
  - unfold PostgresTable.IndexByName.
    by rewrite (find_by_name Definable.Name).
  - unfold PostgresTable.IndexByName.
    rewrite (find_by_name Definable.Name) by done.
    by rewrite bool_decide_eq_false_2 by (intros Hne; by apply Hne).
  - unfold PostgresTable.ConstraintByName.
    by rewrite (find_by_name PostgresConstraint.Name).
  - unfold PostgresTable.ConstraintByName.
    rewrite (find_by_name PostgresConstraint.Name) by done.
    by rewrite bool_decide_eq_false_2 by (intros Hne; by apply Hne).
  - unfold PostgresTable.ColumnByName.
    by rewrite (find_by_name PostgresColumn.Name).
  - unfold PostgresTable.ColumnByName, PostgresTable.alterColumnStmts.
    rewrite (find_by_name PostgresColumn.Name) by done.
    by rewrite PostgresColumn_HasEqualAttributes_refl.
Qed.

Lemma Postgres_diffSourceTables_self (tables rest : list PgTable) (diff : Builder) :
  NoDup (PostgresTable.Name <$> tables) →
  Forall PostgresTable_wf tables →
  rest ⊆ tables →
  blank diff →
  ∃ diff', PostgresDriver.diffSourceTables tables rest diff = Ok diff' ∧ blank diff'.
Proof.
  intros Hnd Hwf. unfold PostgresDriver.diffSourceTables. revert diff.
  induction rest as [|t0 rest IH]; intros diff Hsub Hb; cbn [foldl].
  - by exists diff.
  - assert (t0 ∈ tables) as Hin by (apply Hsub, list_elem_of_here).
    cbn [mbind result_bind].
    rewrite (find_by_name PostgresTable.Name) by done.
    unfold PostgresTable.DiffTable.
    rewrite Postgres_DiffTableStmts_self by (by eapply Forall_forall in Hwf).
    cbn [mbind result_bind]. apply IH.
    + intros x Hx. by apply Hsub, list_elem_of_further.
    + by apply blank_Fprintln.
Qed.

Lemma Postgres_dropTargetTables_self (tables : list PgTable) (diff : Builder) :
  NoDup (PostgresTable.Name <$> tables) →
  PostgresDriver.dropTargetTables tables tables diff = diff.
Proof.
  intros Hnd. apply foldl_fixed. intros t0 Hin.
  by rewrite (find_by_name PostgresTable.Name).
Qed.

Lemma Postgres_diffSourceViews_self (views : list PostgresView.t) (diff : Builder) :
  NoDup (PostgresView.Name <$> views) →
  PostgresDriver.diffSourceViews views views diff = diff.
Proof.
  intros Hnd. apply foldl_fixed. intros v Hin.
  rewrite (find_by_name PostgresView.Name) by done.
  by rewrite bool_decide_eq_false_2 by (intros Hne; by apply Hne).
Qed.

Lemma Postgres_dropTargetViews_self (views : list PostgresView.t) (diff : Builder) :
  NoDup (PostgresView.Name <$> views) →
  PostgresDriver.dropTargetViews views views diff = diff.
Proof.
  intros Hnd. apply foldl_fixed. intros v Hin.
  by rewrite (find_by_name PostgresView.Name).
Qed.

Lemma PostgresDriver_Diff_self (env : PostgresDriver.Env) (d : PostgresDriver.t)
    (tables : list PgTable) (views : list PostgresView.t) :
  PostgresDriver.GetTables env (PostgresDriver.SourceDatabaseConnection d) = Ok tables →
  PostgresDriver.GetTables env (PostgresDriver.TargetDatabaseConnection d) = Ok tables →
  PostgresDriver.GetViews env (PostgresDriver.SourceDatabaseConnection d) = Ok views →
  PostgresDriver.GetViews env (PostgresDriver.TargetDatabaseConnection d) = Ok views →
  PostgresSchema_wf tables views →
  PostgresDriver.Diff env d = Ok EmptyString.
Proof.
  intros Hst Htt Hsv Htv (Hnd & Hwf & Hndv).
  unfold PostgresDriver.Diff, PostgresDriver.DiffTables, PostgresDriver.DiffViews.
  rewrite Hst, Htt, Hsv, Htv. cbn [mbind result_bind].
  destruct (Postgres_diffSourceTables_self tables tables EmptyString)
    as (diff1 & -> & Hb1); [done..|apply blank_empty|].
  cbn [mbind result_bind].
  rewrite Postgres_dropTargetTables_self, Postgres_diffSourceViews_self,
    Postgres_dropTargetViews_self by done.
  change (TrimSpace EmptyString) with EmptyString.
  rewrite (TrimSpace_blank (Fprintln diff1 EmptyString)) by (by apply blank_Fprintln).
  reflexivity.
Qed.

End PostgresSelf.

(** * The properties of the specification *)

(** ** Diffing a schema against itself *)

(** C1: diffing a schema model against itself returns the empty string,
    for [SQLiteDriver.Diff] under every iteration order of the runtime and
    for [PostgresDriver.Diff]. The models are those that the catalog
    queries of the drivers return, in which names identify the objects
    (section 3 of the specification): table and view names are unique in
    the schema; column, index, trigger and constraint names are unique in
    their table. *)
Theorem diff_of_equal_models_is_empty :
  (∀ (iters : nat → MapOrder) (env : SQLiteDriver.Env) (d : SQLiteDriver.t)
     (tables : list SQLiteTable.t) (views : list SQLiteView.t),
     (∀ i, valid_order (iters i)) →
     SQLiteDriver.GetTables env (SQLiteDriver.SourceDatabaseConnection d) = Ok tables →
     SQLiteDriver.GetTables env (SQLiteDriver.TargetDatabaseConnection d) = Ok tables →
     SQLiteDriver.GetViews env (SQLiteDriver.SourceDatabaseConnection d) = Ok views →
     SQLiteDriver.GetViews env (SQLiteDriver.TargetDatabaseConnection d) = Ok views →
     SQLiteSchema_wf tables views →
     SQLiteDriver.Diff iters env d = Ok EmptyString)
  ∧ (∀ (PostgresIndex PostgresTrigger : Type)
       (DI : Definable.t PostgresIndex) (DT : Definable.t PostgresTrigger)
       (env : PostgresDriver.Env) (d : PostgresDriver.t)
       (tables : list (PostgresTable.t PostgresIndex PostgresTrigger))
       (views : list PostgresView.t),
       PostgresDriver.GetTables env (PostgresDriver.SourceDatabaseConnection d) = Ok tables →
       PostgresDriver.GetTables env (PostgresDriver.TargetDatabaseConnection d) = Ok tables →
       PostgresDriver.GetViews env (PostgresDriver.SourceDatabaseConnection d) = Ok views →
       PostgresDriver.GetViews env (PostgresDriver.TargetDatabaseConnection d) = Ok views →
       PostgresSchema_wf tables views →
       PostgresDriver.Diff env d = Ok EmptyString).
Proof.
  split.
  - intros. by eapply SQLiteDriver_Diff_self.
  - intros. by eapply PostgresDriver_Diff_self.
Qed.

Lemma diff_of_equal_models_is_empty_witness :
  SQLiteDriver.Diff (λ _, inReverseKeyOrder)
    (sqliteEnv [usersTable] [usersTable] [usersView]) sqliteDriver = Ok EmptyString
  ∧ PostgresDriver.Diff (postgresEnv [pgUsers] [pgUsers] [pgView]) postgresDriver
    = Ok EmptyString.
Proof.
  split.
  - apply (proj1 diff_of_equal_models_is_empty (λ _, inReverseKeyOrder)
             (sqliteEnv [usersTable] [usersTable] [usersView]) sqliteDriver
             [usersTable] [usersView]).
    + intros _ m. apply reverse_Permutation.
    + reflexivity.
    + reflexivity.
    + reflexivity.
    + reflexivity.
    + unfold SQLiteSchema_wf, SQLiteTable_wf.
      repeat first [split | apply Forall_cons | apply Forall_nil];
        refine (bool_decide_unpack _ _); vm_compute; exact I.
  - apply (proj2 diff_of_equal_models_is_empty NamedDef NamedDef _ _
             (postgresEnv [pgUsers] [pgUsers] [pgView]) postgresDriver
             [pgUsers] [pgView]).
    + reflexivity.
    + reflexivity.
    + reflexivity.
    + reflexivity.
    + unfold PostgresSchema_wf, PostgresTable_wf.
      repeat first [split | apply Forall_cons | apply Forall_nil];
        refine (bool_decide_unpack _ _); vm_compute; exact I.
Defined.

(** ** The rebuild protocol *)

Lemma ColumnByName_is_Some (t0 : SQLiteTable.t) (name : string) :
  is_Some (SQLiteTable.ColumnByName t0 name) ↔ hasColumnNamed t0 name.
Proof.
  unfold SQLiteTable.ColumnByName, hasColumnNamed. split.
  - intros [c Hc]. apply find_some_elem in Hc as [Hin Hn].
    exists c. split; [done|]. by apply bool_decide_eq_true in Hn.
  - intros (c & Hin & Hn).
    destruct (find _ _) as [c'|] eqn:Hf; [by eexists|].
    rewrite find_none_iff in Hf. specialize (Hf c Hin).
    by rewrite bool_decide_eq_true_2 in Hf.
Qed.

Lemma ColumnByName_Some_name (t0 : SQLiteTable.t) (name : string) (c : SQLiteColumn.t) :
  SQLiteTable.ColumnByName t0 name = Some c →
  c ∈ SQLiteTable.Columns t0 ∧ SQLiteColumn.Name c = name.
Proof.
  intros Hc. apply find_some_elem in Hc as [Hin Hn].
  split; [done|]. by apply bool_decide_eq_true in Hn.
Qed.

(** [lo.Invert]: every entry of the result is an entry of the map turned
    around, and every value of the map is a key of the result. *)
Lemma Invert_lookup_Some (iter : MapOrder) (m : gmap string string) (v k : string) :
  valid_order iter →
  Invert iter m !! v = Some k → m !! k = Some v.
Proof.
  intros Hv. unfold Invert.
  assert (∀ kv, kv ∈ iter m → m !! kv.1 = Some kv.2) as Hin.
  { intros [k' v'] Hkv. rewrite (Hv m) in Hkv. by apply elem_of_map_to_list in Hkv. }
  revert Hin. generalize (iter m). intros l.
  induction l as [|kv l IH] using rev_ind; intros Hin.
  - cbn. by rewrite lookup_empty.
  - rewrite foldl_app. cbn. destruct (decide (kv.2 = v)) as [<-|Hne].
    + rewrite lookup_insert_eq. intros [= <-]. apply Hin. set_solver.
    + rewrite lookup_insert_ne by done. apply IH. intros kv' Hkv'. apply Hin. set_solver.
Qed.

Lemma Invert_lookup_None (iter : MapOrder) (m : gmap string string) (v : string) :
  valid_order iter →
  Invert iter m !! v = None → ∀ k, m !! k ≠ Some v.
Proof.
  intros Hv Hnone k Hk. unfold Invert in Hnone.
  assert ((k, v) ∈ iter m) as Hin by (rewrite (Hv m); by apply elem_of_map_to_list).
  revert Hin Hnone. generalize (iter m). intros l.
  induction l as [|kv l IH] using rev_ind; intros Hin.
  - by apply elem_of_nil in Hin.
  - rewrite foldl_app. cbn. destruct (decide (kv.2 = v)) as [<-|Hne].
    + by rewrite lookup_insert_eq.
    + rewrite lookup_insert_ne by done. apply IH.
      apply elem_of_app in Hin as [Hin|Hin]; [done|].
      apply list_elem_of_singleton in Hin. by subst kv.
Qed.

(** The expression that one iteration of the rebuild loop appends. *)
Lemma rebuildColumn_appends (other : SQLiteTable.t) (newToOld : gmap string string)
    (acc : list string * list string) (newCol : SQLiteColumn.t) :
  ∃ e,
    SQLiteTable.rebuildColumn other newToOld acc newCol
    = (acc.1 ++ [quoted (SQLiteColumn.Name newCol)], acc.2 ++ [e])
    ∧ (is_Some (SQLiteTable.ColumnByName other (SQLiteColumn.Name newCol)) →
       e = quoted (SQLiteColumn.Name newCol))
    ∧ (SQLiteTable.ColumnByName other (SQLiteColumn.Name newCol) = None →
       match newToOld !! SQLiteColumn.Name newCol with
       | Some oldName => e = quoted oldName
       | None =>
           e = if Valid (SQLiteColumn.Default newCol)
               then String_ (SQLiteColumn.Default newCol) else "NULL"
       end).
Proof.
  unfold SQLiteTable.rebuildColumn.
  destruct (SQLiteTable.ColumnByName other (SQLiteColumn.Name newCol)) as [c|] eqn:Hc.
  - rewrite bool_decide_eq_true_2 by (by eexists). eexists. split; [done|]. by split.
  - rewrite bool_decide_eq_false_2 by (by intros [? ?]).
    destruct (newToOld !! SQLiteColumn.Name newCol) as [oldName|] eqn:Hold.
    + eexists. split; [done|]. split; [by intros [? ?]|done].
    + destruct (Valid (SQLiteColumn.Default newCol)) eqn:Hvalid;
        (eexists; split; [done|]; split; [by intros [? ?]|done]).
Qed.

Lemma rebuild_loop (other : SQLiteTable.t) (newToOld : gmap string string)
    (columns : list SQLiteColumn.t) (acc : list string * list string) :
  ∃ exprs,
    foldl (SQLiteTable.rebuildColumn other newToOld) acc columns
    = (acc.1 ++ ((λ c, quoted (SQLiteColumn.Name c)) <$> columns), acc.2 ++ exprs)
    ∧ Forall2 (λ c e, ∃ acc', SQLiteTable.rebuildColumn other newToOld acc' c
                              = (acc'.1 ++ [quoted (SQLiteColumn.Name c)], acc'.2 ++ [e]))
              columns exprs.
Proof.
  revert acc. induction columns as [|c columns IH]; intros acc; cbn [foldl].
  - exists []. by rewrite !app_nil_r, <- surjective_pairing.
  - destruct (rebuildColumn_appends other newToOld acc c) as (e & He & _).
    destruct (IH (SQLiteTable.rebuildColumn other newToOld acc c)) as (exprs & Hexprs & Hall).
    exists (e :: exprs). split.
    + rewrite Hexprs, He. cbn. by rewrite <- !app_assoc.
    + constructor; [by exists acc|done].
Qed.

Lemma rebuildColumn_SelectExpr (iter : MapOrder) (other : SQLiteTable.t)
    (renamed : gmap string string) (acc : list string * list string)
    (c : SQLiteColumn.t) (e : string) :
  valid_order iter →
  SQLiteTable.rebuildColumn other (Invert iter renamed) acc c
  = (acc.1 ++ [quoted (SQLiteColumn.Name c)], acc.2 ++ [e]) →
  SelectExpr other renamed c e.
Proof.
  intros Hv Hstep.
  destruct (rebuildColumn_appends other (Invert iter renamed) acc c) as (e' & He' & Hsome & Hnone).
  rewrite He' in Hstep. injection Hstep as Hstep. apply app_inj_tail in Hstep as [_ ->].
  destruct (SQLiteTable.ColumnByName other (SQLiteColumn.Name c)) as [tc|] eqn:Hc.
  - rewrite Hsome by (by eexists). apply SelectSameName.
    apply ColumnByName_is_Some. rewrite Hc. by eexists.
  - assert (¬ hasColumnNamed other (SQLiteColumn.Name c)) as Hnot.
    { rewrite <- ColumnByName_is_Some, Hc. by intros [? ?]. }
    specialize (Hnone eq_refl).
    destruct (Invert iter renamed !! SQLiteColumn.Name c) as [oldName|] eqn:Hold.
    + subst e. apply SelectOldName; [done|]. by eapply Invert_lookup_Some.
    + pose proof (Invert_lookup_None iter renamed _ Hv Hold) as Hno.
      destruct (Valid (SQLiteColumn.Default c)) eqn:Hvalid; subst e.
      * by apply SelectDefault.
      * by apply SelectNull.
Qed.

Lemma rebuildTriggered_iff (d : SQLiteTable.ColumnsDiff) :
  SQLiteTable.rebuildTriggered d = true
  ↔ SQLiteTable.Modified d ≠ [] ∨ SQLiteTable.ForeignKeysChanged d = true.
Proof.
  unfold SQLiteTable.rebuildTriggered.
  rewrite orb_true_iff, bool_decide_eq_true.
  destruct (SQLiteTable.Modified d); cbn; split; intros [?|?]; auto; try lia; try done.
Qed.

Lemma DiffTableStmts_rebuild (iter : MapOrder) (t0 other : SQLiteTable.t) :
  SQLiteTable.rebuildTriggered (SQLiteTable.DiffColumns t0 other) = true →
  ∃ exprs,
    SQLiteTable.DiffTableStmts iter t0 other = Ok (rebuildProtocol t0 exprs)
    ∧ Forall2 (λ c e, ∃ acc',
                 SQLiteTable.rebuildColumn other
                   (Invert iter (SQLiteTable.Renamed (SQLiteTable.DiffColumns t0 other))) acc' c
                 = (acc'.1 ++ [quoted (SQLiteColumn.Name c)], acc'.2 ++ [e]))
              (SQLiteTable.Columns t0) exprs.
Proof.
  intros Htrig. unfold SQLiteTable.DiffTableStmts. rewrite Htrig.
  destruct (rebuild_loop other
              (Invert iter (SQLiteTable.Renamed (SQLiteTable.DiffColumns t0 other)))
              (SQLiteTable.Columns t0) ([], [])) as (exprs & -> & Hall).
  by exists exprs.
Qed.

Lemma rebuildProtocol_no_column_alteration (t0 : SQLiteTable.t) (exprs : list string) :
  Forall (λ s, isColumnAlteration s = false ∧ isRebuildStep s = true) (rebuildProtocol t0 exprs).
Proof.
  unfold rebuildProtocol. apply Forall_app. split.
  - by repeat constructor.
  - apply Forall_fmap, Forall_forall. by intros idx _.
Qed.

Lemma DiffTable_written (iter : MapOrder) (t0 other : SQLiteTable.t) (stmts : list Stmt) :
  SQLiteTable.DiffTableStmts iter t0 other = Ok stmts →
  SQLiteTable.DiffTable iter t0 other = Ok (TrimSpace (written stmts)).
Proof. intros H. unfold SQLiteTable.DiffTable. by rewrite H. Qed.

(** ** Invariants of the column classification *)

Lemma foldl_invariant {A B} (P : B → Prop) (f : B → A → B) (l : list A) (b : B) :
  P b → (∀ b x, x ∈ l → P b → P (f b x)) → P (foldl f b l).
Proof.
  revert b. induction l as [|a l IH]; intros b Hb Hstep; cbn; [done|].
  apply IH.
  - apply Hstep; [apply list_elem_of_here|done].
  - intros b' x Hx. apply Hstep. by apply list_elem_of_further.
Qed.

Lemma diff_le_refl (d : SQLiteTable.ColumnsDiff) : diff_le d d.
Proof. by repeat split. Qed.

Lemma diff_le_trans (d1 d2 d3 : SQLiteTable.ColumnsDiff) :
  diff_le d1 d2 → diff_le d2 d3 → diff_le d1 d3.
Proof. intros (?&?&?) (?&?&?). repeat split; set_solver. Qed.

#[global] Instance diff_le_preorder : PreOrder diff_le.
Proof. split; [exact diff_le_refl|exact diff_le_trans]. Qed.

Lemma diffSourceColumn_le (t0 other : SQLiteTable.t) (d : SQLiteTable.ColumnsDiff)
    (c : SQLiteColumn.t) :
  diff_le d (SQLiteTable.diffSourceColumn t0 other d c).
Proof.
  unfold SQLiteTable.diffSourceColumn, diff_le.
  repeat (case_match || case_bool_decide); cbn; repeat split; set_solver.
Qed.

Lemma diffTargetColumn_le (t0 : SQLiteTable.t) (d : SQLiteTable.ColumnsDiff)
    (c : SQLiteColumn.t) :
  diff_le d (SQLiteTable.diffTargetColumn t0 d c).
Proof.
  unfold SQLiteTable.diffTargetColumn, diff_le.
  case_match; cbn; repeat split; set_solver.
Qed.

Lemma foldl_diff_le {A} (f : SQLiteTable.ColumnsDiff → A → SQLiteTable.ColumnsDiff)
    (l : list A) (d : SQLiteTable.ColumnsDiff) :
  (∀ d x, diff_le d (f d x)) → diff_le d (foldl f d l).
Proof.
  intros Hf. revert d. induction l as [|a l IH]; intros d; cbn.
  - apply diff_le_refl.
  - eapply diff_le_trans; [apply Hf|apply IH].
Qed.

Lemma DiffColumns_lists (t0 other : SQLiteTable.t) :
  SQLiteTable.Added (SQLiteTable.DiffColumns t0 other) = SQLiteTable.Added (afterTargetColumns t0 other)
  ∧ SQLiteTable.Modified (SQLiteTable.DiffColumns t0 other) = SQLiteTable.Modified (afterTargetColumns t0 other)
  ∧ SQLiteTable.Removed (SQLiteTable.DiffColumns t0 other) = SQLiteTable.Removed (afterTargetColumns t0 other)
  ∧ SQLiteTable.Renamed (SQLiteTable.DiffColumns t0 other) = SQLiteTable.Renamed (afterTargetColumns t0 other).
Proof.
  unfold SQLiteTable.DiffColumns, afterTargetColumns, afterSourceColumns.
  by destruct (SQLiteTable.foreignKeysChanged t0 other).
Qed.

Lemma diffTargetColumn_keeps (t0 : SQLiteTable.t) (d : SQLiteTable.ColumnsDiff)
    (c : SQLiteColumn.t) :
  SQLiteTable.Added (SQLiteTable.diffTargetColumn t0 d c) = SQLiteTable.Added d
  ∧ SQLiteTable.Modified (SQLiteTable.diffTargetColumn t0 d c) = SQLiteTable.Modified d
  ∧ SQLiteTable.Renamed (SQLiteTable.diffTargetColumn t0 d c) = SQLiteTable.Renamed d
  ∧ SQLiteTable.ForeignKeysChanged (SQLiteTable.diffTargetColumn t0 d c)
    = SQLiteTable.ForeignKeysChanged d.
Proof. unfold SQLiteTable.diffTargetColumn. by case_match. Qed.

Lemma afterTargetColumns_keeps (t0 other : SQLiteTable.t) :
  SQLiteTable.Added (afterTargetColumns t0 other) = SQLiteTable.Added (afterSourceColumns t0 other)
  ∧ SQLiteTable.Modified (afterTargetColumns t0 other) = SQLiteTable.Modified (afterSourceColumns t0 other)
  ∧ SQLiteTable.Renamed (afterTargetColumns t0 other) = SQLiteTable.Renamed (afterSourceColumns t0 other).
Proof.
  unfold afterTargetColumns.
  apply (foldl_invariant
           (λ d, SQLiteTable.Added d = SQLiteTable.Added (afterSourceColumns t0 other)
                 ∧ SQLiteTable.Modified d = SQLiteTable.Modified (afterSourceColumns t0 other)
                 ∧ SQLiteTable.Renamed d = SQLiteTable.Renamed (afterSourceColumns t0 other)));
    [done|].
  intros d c _ (Ha & Hm & Hr).
  destruct (diffTargetColumn_keeps t0 d c) as (-> & -> & -> & _). done.
Qed.

Lemma DiffColumns_ForeignKeysChanged (t0 other : SQLiteTable.t) :
  SQLiteTable.ForeignKeysChanged (SQLiteTable.DiffColumns t0 other)
  = SQLiteTable.foreignKeysChanged t0 other.
Proof.
  unfold SQLiteTable.DiffColumns.
  destruct (SQLiteTable.foreignKeysChanged t0 other); [done|].
  apply (foldl_invariant (λ d, SQLiteTable.ForeignKeysChanged d = false)).
  - by apply (foldl_invariant (λ d, SQLiteTable.ForeignKeysChanged d = false));
      [|intros d c _ Hd; unfold SQLiteTable.diffSourceColumn;
        repeat (case_match || case_bool_decide)].
  - intros d c _ Hd. by destruct (diffTargetColumn_keeps t0 d c) as (_ & _ & _ & ->).
Qed.

(** Every name in [Added] is the name of a source column. *)
Lemma Added_source_names (t0 other : SQLiteTable.t) (name : string) :
  name ∈ SQLiteTable.Added (SQLiteTable.DiffColumns t0 other) →
  hasColumnNamed t0 name.
Proof.
  destruct (DiffColumns_lists t0 other) as (-> & _).
  destruct (afterTargetColumns_keeps t0 other) as (-> & _).
  unfold afterSourceColumns. revert name.
  apply (foldl_invariant (λ d, ∀ name, name ∈ SQLiteTable.Added d → hasColumnNamed t0 name)).
  - intros name Hin. by apply elem_of_nil in Hin.
  - intros d c Hc Hd name. unfold SQLiteTable.diffSourceColumn.
    repeat (case_match || case_bool_decide); cbn; try apply Hd;
      (intros [Hin| ->%list_elem_of_singleton]%elem_of_app; [by apply Hd|by exists c]).
Qed.

(** The loop over [Added] never reaches its internal error. *)
Lemma addColumns_total (t0 : SQLiteTable.t) (added : list string) :
  (∀ name, name ∈ added → hasColumnNamed t0 name) →
  ∃ stmts,
    SQLiteTable.addColumns t0 added = Ok stmts
    ∧ Forall2 (λ name s, ∃ column,
                 SQLiteTable.ColumnByName t0 name = Some column
                 ∧ s = AddColumn (SQLiteTable.Name t0) (SQLiteColumn.String column))
              added stmts.
Proof.
  induction added as [|name added IH]; intros Hall; cbn.
  - by exists [].
  - destruct (proj2 (ColumnByName_is_Some t0 name)) as [column Hcolumn];
      [apply Hall, list_elem_of_here|].
    rewrite Hcolumn.
    destruct IH as (stmts & -> & Hstmts);
      [intros n Hn; by apply Hall, list_elem_of_further|].
    cbn. eexists. split; [done|]. constructor; [by exists column|done].
Qed.

Lemma DiffTableStmts_in_place (iter : MapOrder) (t0 other : SQLiteTable.t) :
  SQLiteTable.rebuildTriggered (SQLiteTable.DiffColumns t0 other) = false →
  ∃ adds,
    SQLiteTable.DiffTableStmts iter t0 other
    = Ok (((λ kv, RenameColumn (SQLiteTable.Name t0) kv.1 kv.2)
             <$> iter (SQLiteTable.Renamed (SQLiteTable.DiffColumns t0 other)))
          ++ (DropColumn (SQLiteTable.Name t0)
                <$> SQLiteTable.Removed (SQLiteTable.DiffColumns t0 other))
          ++ adds)
    ∧ Forall2 (λ name s, ∃ column,
                 SQLiteTable.ColumnByName t0 name = Some column
                 ∧ s = AddColumn (SQLiteTable.Name t0) (SQLiteColumn.String column))
              (SQLiteTable.Added (SQLiteTable.DiffColumns t0 other)) adds.
Proof.
  intros Htrig. unfold SQLiteTable.DiffTableStmts. rewrite Htrig.
  destruct (addColumns_total t0 (SQLiteTable.Added (SQLiteTable.DiffColumns t0 other)))
    as (adds & -> & Hadds); [apply Added_source_names|].
  by exists adds.
Qed.

Lemma source_column_step (t0 other : SQLiteTable.t) (sc : SQLiteColumn.t) :
  sc ∈ SQLiteTable.Columns t0 →
  ∃ d, diff_le (SQLiteTable.diffSourceColumn t0 other d sc) (afterTargetColumns t0 other).
Proof.
  intros (l1 & l2 & Hsplit)%list_elem_of_split.
  exists (foldl (SQLiteTable.diffSourceColumn t0 other) SQLiteTable.emptyDiff l1).
  unfold afterTargetColumns, afterSourceColumns. rewrite Hsplit, foldl_app. cbn [foldl].
  etrans; [|apply (foldl_diff_le (SQLiteTable.diffTargetColumn t0)), diffTargetColumn_le].
  apply (foldl_diff_le (SQLiteTable.diffSourceColumn t0 other)), diffSourceColumn_le.
Qed.

Lemma type_change_step (t0 other : SQLiteTable.t) (d : SQLiteTable.ColumnsDiff)
    (sc tc : SQLiteColumn.t) :
  SQLiteTable.ColumnByName other (SQLiteColumn.Name sc) = Some tc →
  SQLiteColumn.Type_ sc ≠ SQLiteColumn.Type_ tc →
  SQLiteTable.diffSourceColumn t0 other d sc
  = if SQLiteColumn.IsTypeChangeCompatible sc tc
    then SQLiteTable.addModified d (SQLiteColumn.Name sc)
    else SQLiteTable.addAdded (SQLiteTable.addRemoved d (SQLiteColumn.Name tc))
                              (SQLiteColumn.Name sc).
Proof.
  intros Htc Hty. unfold SQLiteTable.diffSourceColumn. rewrite Htc.
  rewrite bool_decide_eq_false_2 by (by intros ->).
  by rewrite bool_decide_eq_true_2.
Qed.

(** What puts a name into [Modified]: a source column of that name whose
    namesake in the target differs from it, with a compatible type change
    if the type changed at all. *)
Lemma Modified_inv (t0 other : SQLiteTable.t) (name : string) :
  name ∈ SQLiteTable.Modified (SQLiteTable.DiffColumns t0 other) →
  ∃ sc tc,
    sc ∈ SQLiteTable.Columns t0 ∧ SQLiteColumn.Name sc = name
    ∧ SQLiteTable.ColumnByName other name = Some tc
    ∧ sc ≠ tc
    ∧ (SQLiteColumn.Type_ sc ≠ SQLiteColumn.Type_ tc →
       SQLiteColumn.IsTypeChangeCompatible sc tc = true).
Proof.
  destruct (DiffColumns_lists t0 other) as (_ & -> & _).
  destruct (afterTargetColumns_keeps t0 other) as (_ & -> & _).
  unfold afterSourceColumns. revert name.
  apply (foldl_invariant
           (λ d, ∀ name, name ∈ SQLiteTable.Modified d →
                 ∃ sc tc, sc ∈ SQLiteTable.Columns t0 ∧ SQLiteColumn.Name sc = name
                          ∧ SQLiteTable.ColumnByName other name = Some tc ∧ sc ≠ tc
                          ∧ (SQLiteColumn.Type_ sc ≠ SQLiteColumn.Type_ tc →
                             SQLiteColumn.IsTypeChangeCompatible sc tc = true))).
  - intros name Hin. by apply elem_of_nil in Hin.
  - intros d c Hc Hd name. unfold SQLiteTable.diffSourceColumn.
    destruct (SQLiteTable.ColumnByName other (SQLiteColumn.Name c)) as [tc|] eqn:Htc.
    + repeat case_bool_decide; [by apply Hd|destruct (SQLiteColumn.IsTypeChangeCompatible c tc) eqn:Hcompat|];
        cbn; try apply Hd;
        (intros [Hin| ->%list_elem_of_singleton]%elem_of_app; [by apply Hd|]);
        exists c, tc; repeat split; try done.
    + case_match; cbn; apply Hd.
Qed.

Lemma NoDup_names_inj (t0 : SQLiteTable.t) (c1 c2 : SQLiteColumn.t) :
  NoDup (SQLiteColumn.Name <$> SQLiteTable.Columns t0) →
  c1 ∈ SQLiteTable.Columns t0 → c2 ∈ SQLiteTable.Columns t0 →
  SQLiteColumn.Name c1 = SQLiteColumn.Name c2 → c1 = c2.
Proof.
  intros Hnd H1 H2 Hname.
  pose proof (SQLiteTable_ColumnByName_self t0 c1 Hnd H1) as E1.
  pose proof (SQLiteTable_ColumnByName_self t0 c2 Hnd H2) as E2.
  rewrite Hname in E1. congruence.
Qed.

Lemma IsTypeChangeCompatible_allowlist (c other : SQLiteColumn.t) :
  SQLiteColumn.IsTypeChangeCompatible c other = true
  ↔ SQLiteColumn.Type_ c ∈ compatibleTypeNames
    ∧ SQLiteColumn.Type_ other ∈ compatibleTypeNames.
Proof.
  assert (∀ ty, is_Some (SQLiteColumn.compatibleTypes !! ty) ↔ ty ∈ compatibleTypeNames) as Hallow.
  { intros ty. unfold SQLiteColumn.compatibleTypes.
    rewrite <- not_eq_None_Some, <- not_elem_of_list_to_map.
    split; [apply dec_stable|by intros ? ?]. }
  unfold SQLiteColumn.IsTypeChangeCompatible.
  by rewrite andb_true_iff, !bool_decide_eq_true, !Hallow.
Qed.

(** ** Type changes *)

(** C4 (as amended): a source column [sc] with a namesake [tc] of another
    declared type in the target is classified Modified, and the table is
    rebuilt, if and only if both types are in {TEXT, INTEGER, REAL, BLOB};
    otherwise it is classified as a Removed/Added pair, and when the table
    is not rebuilt for another reason (no column Modified, foreign keys
    unchanged) a DROP COLUMN followed by an ADD COLUMN is emitted. *)
Theorem type_change_classification (iter : MapOrder) (t0 other : SQLiteTable.t)
    (sc tc : SQLiteColumn.t) :
  sc ∈ SQLiteTable.Columns t0 →
  SQLiteTable.ColumnByName other (SQLiteColumn.Name sc) = Some tc →
  SQLiteColumn.Type_ sc ≠ SQLiteColumn.Type_ tc →
  (SQLiteColumn.IsTypeChangeCompatible sc tc = true
   ↔ SQLiteColumn.Type_ sc ∈ compatibleTypeNames ∧ SQLiteColumn.Type_ tc ∈ compatibleTypeNames)
  ∧ (SQLiteColumn.IsTypeChangeCompatible sc tc = true →
     SQLiteColumn.Name sc ∈ SQLiteTable.Modified (SQLiteTable.DiffColumns t0 other)
     ∧ ∃ exprs, SQLiteTable.DiffTableStmts iter t0 other = Ok (rebuildProtocol t0 exprs))
  ∧ (SQLiteColumn.IsTypeChangeCompatible sc tc = false →
     SQLiteColumn.Name tc ∈ SQLiteTable.Removed (SQLiteTable.DiffColumns t0 other)
     ∧ SQLiteColumn.Name sc ∈ SQLiteTable.Added (SQLiteTable.DiffColumns t0 other)
     ∧ (NoDup (SQLiteColumn.Name <$> SQLiteTable.Columns t0) →
        SQLiteColumn.Name sc ∉ SQLiteTable.Modified (SQLiteTable.DiffColumns t0 other))
     ∧ (SQLiteTable.Modified (SQLiteTable.DiffColumns t0 other) = [] →
        SQLiteTable.ForeignKeysChanged (SQLiteTable.DiffColumns t0 other) = false →
        ∃ column pre mid post,
          SQLiteTable.ColumnByName t0 (SQLiteColumn.Name sc) = Some column
          ∧ SQLiteTable.DiffTableStmts iter t0 other
            = Ok (pre ++ DropColumn (SQLiteTable.Name t0) (SQLiteColumn.Name tc)
                      :: mid ++ AddColumn (SQLiteTable.Name t0) (SQLiteColumn.String column)
                      :: post))
     ∧ (SQLiteTable.Modified (SQLiteTable.DiffColumns t0 other) ≠ []
        ∨ SQLiteTable.ForeignKeysChanged (SQLiteTable.DiffColumns t0 other) = true →
        ∃ exprs,
          SQLiteTable.DiffTableStmts iter t0 other = Ok (rebuildProtocol t0 exprs)
          ∧ Forall (λ s, isColumnAlteration s = false) (rebuildProtocol t0 exprs))).
Proof.
  intros Hsc Htc Hty.
  destruct (source_column_step t0 other sc Hsc) as (d & Hadded & Hmodified & Hremoved).
  rewrite (type_change_step t0 other d sc tc Htc Hty) in Hadded, Hmodified, Hremoved.
  destruct (DiffColumns_lists t0 other) as (HA & HM & HR & _).
  split; [apply IsTypeChangeCompatible_allowlist|]. split.
  - intros Hcompat. rewrite Hcompat in Hmodified.
    assert (SQLiteColumn.Name sc ∈ SQLiteTable.Modified (SQLiteTable.DiffColumns t0 other)) as Hin.
    { rewrite HM. apply Hmodified. cbn. set_solver. }
    split; [done|].
    destruct (DiffTableStmts_rebuild iter t0 other) as (exprs & Hstmts & _); [|by exists exprs].
    apply rebuildTriggered_iff. left. by intros Hnil; rewrite Hnil in Hin; apply elem_of_nil in Hin.
  - intros Hcompat. rewrite Hcompat in Hadded, Hremoved.
    assert (SQLiteColumn.Name tc ∈ SQLiteTable.Removed (SQLiteTable.DiffColumns t0 other)) as Hrem.
    { rewrite HR. apply Hremoved. cbn. set_solver. }
    assert (SQLiteColumn.Name sc ∈ SQLiteTable.Added (SQLiteTable.DiffColumns t0 other)) as Hadd.
    { rewrite HA. apply Hadded. cbn. set_solver. }
    split; [done|]. split; [done|]. split; [|split].
    + intros Hnd (sc' & tc' & Hsc' & Hname & Htc' & _ & Hcompat')%Modified_inv.
      assert (sc' = sc) as -> by (by eapply NoDup_names_inj).
      rewrite Htc in Htc'. injection Htc' as <-.
      rewrite Hcompat' in Hcompat; done.
    + intros Hm Hfk.
      assert (SQLiteTable.rebuildTriggered (SQLiteTable.DiffColumns t0 other) = false) as Htrig.
      { apply not_true_is_false. intros [?|?]%rebuildTriggered_iff; congruence. }
      destruct (DiffTableStmts_in_place iter t0 other Htrig) as (adds & -> & Hadds).
      apply list_elem_of_split in Hrem as (r1 & r2 & ->).
      apply list_elem_of_split in Hadd as (a1 & a2 & Hsplit).
      rewrite Hsplit in Hadds.
      apply Forall2_app_inv_l in Hadds as (s1 & s2' & _ & Hadds & ->).
      apply Forall2_cons_inv_l in Hadds as (s & s2 & (column & Hcolumn & ->) & _ & ->).
      exists column, (((λ kv, RenameColumn (SQLiteTable.Name t0) kv.1 kv.2)
                         <$> iter (SQLiteTable.Renamed (SQLiteTable.DiffColumns t0 other)))
                      ++ (DropColumn (SQLiteTable.Name t0) <$> r1)),
        ((DropColumn (SQLiteTable.Name t0) <$> r2) ++ s1), s2.
      split; [done|]. f_equal.
      rewrite fmap_app, fmap_cons. by rewrite <- !app_assoc.
    + intros Htrig%rebuildTriggered_iff.
      destruct (DiffTableStmts_rebuild iter t0 other Htrig) as (exprs & Hstmts & _).
      exists exprs. split; [done|].
      eapply Forall_impl; [apply rebuildProtocol_no_column_alteration|]. by intros s [? _].
Qed.

Lemma type_change_classification_witness :
  SQLiteColumn.Name (column "price" "VARCHAR")
    ∈ SQLiteTable.Removed (SQLiteTable.DiffColumns pricesNew pricesOld)
  ∧ SQLiteColumn.Name (column "price" "NUMERIC")
    ∈ SQLiteTable.Added (SQLiteTable.DiffColumns pricesNew pricesOld)
  ∧ SQLiteTable.DiffTableStmts inKeyOrder pricesNew pricesOld
    = Ok [ DropColumn "prices" "price";
           AddColumn "prices" (SQLiteColumn.String (column "price" "NUMERIC")) ].
Proof.
  destruct (type_change_classification inKeyOrder pricesNew pricesOld
              (column "price" "NUMERIC") (column "price" "VARCHAR"))
    as (_ & _ & Hpair).
  - apply list_elem_of_here.
  - reflexivity.
  - discriminate.
  - destruct Hpair as (Hremoved & Hadded & _); [reflexivity|].
    split; [exact Hremoved|]. split; [exact Hadded|]. reflexivity.
Defined.

(** C4 (as stated) fails when the table is rebuilt for another column:
    [price] changes between types outside the allowlist and is classified
    Removed and Added, but [label] changes from BLOB to TEXT, the table is
    rebuilt, and no DROP COLUMN or ADD COLUMN is emitted. *)
Lemma type_change_without_drop_add :
  SQLiteTable.ColumnByName pricesLabelOld "price" = Some (column "price" "VARCHAR")
  ∧ SQLiteColumn.IsTypeChangeCompatible (column "price" "NUMERIC") (column "price" "VARCHAR")
    = false
  ∧ SQLiteTable.Removed (SQLiteTable.DiffColumns pricesLabelNew pricesLabelOld) = ["price"]
  ∧ SQLiteTable.Added (SQLiteTable.DiffColumns pricesLabelNew pricesLabelOld) = ["price"]
  ∧ SQLiteTable.Modified (SQLiteTable.DiffColumns pricesLabelNew pricesLabelOld) = ["label"]
  ∧ SQLiteTable.DiffTableStmts inKeyOrder pricesLabelNew pricesLabelOld
    = Ok (rebuildProtocol pricesLabelNew [quoted "price"; quoted "label"])
  ∧ Forall (λ s, isColumnAlteration s = false)
           (rebuildProtocol pricesLabelNew [quoted "price"; quoted "label"]).
Proof.
  repeat split; try reflexivity.
  repeat constructor.
Qed.

(** ** The rebuild protocol: SELECT expressions, triggers and column list *)

Lemma valid_inKeyOrder : valid_order inKeyOrder.
Proof. intros m. reflexivity. Qed.

Lemma valid_inReverseKeyOrder : valid_order inReverseKeyOrder.
Proof. intros m. apply reverse_Permutation. Qed.

(** C2: in the INSERT of a rebuild, the SELECT expression paired with the
    source column [ci] is the quoted name of [ci] if the target has a
    column of that name; else the quoted old name if a rename to [ci] was
    recorded; else the default literal of [ci] if one is declared; else
    NULL. *)
Theorem rebuild_select_expressions (iter : MapOrder) (t0 other : SQLiteTable.t) :
  valid_order iter →
  SQLiteTable.Modified (SQLiteTable.DiffColumns t0 other) ≠ []
  ∨ SQLiteTable.ForeignKeysChanged (SQLiteTable.DiffColumns t0 other) = true →
  ∃ exprs,
    SQLiteTable.DiffTableStmts iter t0 other = Ok (rebuildProtocol t0 exprs)
    ∧ SQLiteTable.DiffTable iter t0 other = Ok (TrimSpace (written (rebuildProtocol t0 exprs)))
    ∧ Forall2 (SelectExpr other (SQLiteTable.Renamed (SQLiteTable.DiffColumns t0 other)))
              (SQLiteTable.Columns t0) exprs.
Proof.
  intros Hv Htrig%rebuildTriggered_iff.
  destruct (DiffTableStmts_rebuild iter t0 other Htrig) as (exprs & Hstmts & Hall).
  exists exprs. split; [done|]. split; [by apply DiffTable_written|].
  eapply Forall2_impl; [exact Hall|].
  intros c e [acc' Hstep]. by eapply rebuildColumn_SelectExpr.
Qed.

Lemma rebuild_select_expressions_witness :
  ∃ exprs,
    SQLiteTable.DiffTableStmts inReverseKeyOrder usersNew usersOld
    = Ok (rebuildProtocol usersNew exprs)
    ∧ SQLiteTable.DiffTable inReverseKeyOrder usersNew usersOld
      = Ok (TrimSpace (written (rebuildProtocol usersNew exprs)))
    ∧ Forall2 (SelectExpr usersOld (SQLiteTable.Renamed (SQLiteTable.DiffColumns usersNew usersOld)))
              (SQLiteTable.Columns usersNew) exprs.
Proof.
  apply (rebuild_select_expressions inReverseKeyOrder usersNew usersOld).
  - exact valid_inReverseKeyOrder.
  - left. vm_compute. discriminate.
Defined.

Example rebuild_users_statements :
  SQLiteTable.Renamed (SQLiteTable.DiffColumns usersNew usersOld) = {[ "name" := "full_name" ]}
  ∧ SQLiteTable.DiffTableStmts inKeyOrder usersNew usersOld
    = Ok (rebuildProtocol usersNew
            [quoted "id"; quoted "name"; quoted "age"; "'none'"; "NULL"]).
Proof. split; [by vm_compute|reflexivity]. Qed.

Lemma foreignKeysChanged_iff (t0 other : SQLiteTable.t) :
  SQLiteTable.foreignKeysChanged t0 other = true ↔ foreignKeySetsDiffer t0 other.
Proof.
  unfold SQLiteTable.foreignKeysChanged, foreignKeySetsDiffer.
  case_bool_decide as Hlen.
  - split; [by left|done].
  - rewrite existsb_true_elem. split.
    + intros (fk & Hfk & Hnone). right. exists fk. split; [done|].
      apply negb_true_iff in Hnone. rewrite existsb_false_iff in Hnone.
      intros fk' Hfk' ->. specialize (Hnone fk Hfk').
      by rewrite SQLiteForeignKey_Equal_refl in Hnone.
    + intros [?|(fk & Hfk & Hnone)]; [done|]. exists fk. split; [done|].
      apply negb_true_iff, existsb_false_iff. intros fk' Hfk'.
      apply not_true_is_false. intros Heq%SQLiteForeignKey_Equal_eq.
      by apply (Hnone fk').
Qed.

(** C5: when the foreign-key sets of the source and the target table
    differ, the rebuild protocol is emitted, whether or not a column is
    classified Modified. *)
Theorem foreign_key_change_rebuilds (iter : MapOrder) (t0 other : SQLiteTable.t) :
  foreignKeySetsDiffer t0 other →
  SQLiteTable.ForeignKeysChanged (SQLiteTable.DiffColumns t0 other) = true
  ∧ ∃ exprs,
      SQLiteTable.DiffTableStmts iter t0 other = Ok (rebuildProtocol t0 exprs)
      ∧ SQLiteTable.DiffTable iter t0 other
        = Ok (TrimSpace (written (rebuildProtocol t0 exprs))).
Proof.
  intros Hdiffer%foreignKeysChanged_iff.
  assert (SQLiteTable.ForeignKeysChanged (SQLiteTable.DiffColumns t0 other) = true) as Hchanged
    by (by rewrite DiffColumns_ForeignKeysChanged).
  split; [done|].
  destruct (DiffTableStmts_rebuild iter t0 other) as (exprs & Hstmts & _).
  - apply rebuildTriggered_iff. by right.
  - exists exprs. split; [done|]. by apply DiffTable_written.
Qed.

Lemma foreign_key_change_rebuilds_witness :
  SQLiteTable.Modified (SQLiteTable.DiffColumns usersTable usersWithoutForeignKey) = []
  ∧ SQLiteTable.ForeignKeysChanged (SQLiteTable.DiffColumns usersTable usersWithoutForeignKey)
    = true
  ∧ ∃ exprs,
      SQLiteTable.DiffTableStmts inKeyOrder usersTable usersWithoutForeignKey
      = Ok (rebuildProtocol usersTable exprs)
      ∧ SQLiteTable.DiffTable inKeyOrder usersTable usersWithoutForeignKey
        = Ok (TrimSpace (written (rebuildProtocol usersTable exprs))).
Proof.
  split; [reflexivity|].
  apply (foreign_key_change_rebuilds inKeyOrder usersTable usersWithoutForeignKey).
  left. vm_compute. discriminate.
Defined.

(** C6: in every rebuild, the column list of the INSERT is the list of the
    (quoted) source column names in declared order; the shadow table is the
    source table under the name [_T_temp], so the list is a permutation of
    the shadow table's columns. *)
Theorem rebuild_insert_columns (iter : MapOrder) (t0 other : SQLiteTable.t) :
  SQLiteTable.Modified (SQLiteTable.DiffColumns t0 other) ≠ []
  ∨ SQLiteTable.ForeignKeysChanged (SQLiteTable.DiffColumns t0 other) = true →
  ∃ insertColumns exprs rest,
    SQLiteTable.DiffTableStmts iter t0 other
    = Ok (CreateTable (SQLiteTable.StringCreateTable (SQLiteTable.tempTable t0))
          :: InsertSelect (SQLiteTable.Name (SQLiteTable.tempTable t0)) insertColumns exprs
                          (SQLiteTable.Name t0)
          :: rest)
    ∧ insertColumns = (λ c, quoted (SQLiteColumn.Name c)) <$> SQLiteTable.Columns t0
    ∧ length exprs = length insertColumns
    ∧ SQLiteTable.Name (SQLiteTable.tempTable t0) = "_" +:+ SQLiteTable.Name t0 +:+ "_temp"
    ∧ SQLiteTable.withName (SQLiteTable.tempTable t0) (SQLiteTable.Name t0) = t0
    ∧ insertColumns
      ≡ₚ (λ c, quoted (SQLiteColumn.Name c)) <$> SQLiteTable.Columns (SQLiteTable.tempTable t0).
Proof.
  intros Htrig%rebuildTriggered_iff.
  destruct (DiffTableStmts_rebuild iter t0 other Htrig) as (exprs & Hstmts & Hall).
  eexists _, exprs, _. split; [exact Hstmts|]. split; [done|]. split.
  - rewrite length_fmap. symmetry. by eapply Forall2_length.
  - split; [done|]. split; [by destruct t0|done].
Qed.

Lemma rebuild_insert_columns_witness :
  ∃ insertColumns exprs rest,
    SQLiteTable.DiffTableStmts inKeyOrder usersNew usersOld
    = Ok (CreateTable (SQLiteTable.StringCreateTable (SQLiteTable.tempTable usersNew))
          :: InsertSelect (SQLiteTable.Name (SQLiteTable.tempTable usersNew)) insertColumns exprs
                          (SQLiteTable.Name usersNew)
          :: rest)
    ∧ insertColumns = (λ c, quoted (SQLiteColumn.Name c)) <$> SQLiteTable.Columns usersNew
    ∧ length exprs = length insertColumns
    ∧ SQLiteTable.Name (SQLiteTable.tempTable usersNew)
      = "_" +:+ SQLiteTable.Name usersNew +:+ "_temp"
    ∧ SQLiteTable.withName (SQLiteTable.tempTable usersNew) (SQLiteTable.Name usersNew) = usersNew
    ∧ insertColumns
      ≡ₚ (λ c, quoted (SQLiteColumn.Name c))
           <$> SQLiteTable.Columns (SQLiteTable.tempTable usersNew).
Proof.
  apply (rebuild_insert_columns inKeyOrder usersNew usersOld).
  left. vm_compute. discriminate.
Defined.

(** C10: the two strategies exclude each other. [DiffTable] always yields
    its statements; when a column is Modified or the foreign keys changed
    they are the rebuild protocol and none of them is an ADD COLUMN, DROP
    COLUMN or RENAME COLUMN; otherwise each of them is one of these three
    and none is a step of the rebuild protocol. *)
Theorem rebuild_excludes_in_place (iter : MapOrder) (t0 other : SQLiteTable.t) :
  ∃ stmts,
    SQLiteTable.DiffTableStmts iter t0 other = Ok stmts
    ∧ SQLiteTable.DiffTable iter t0 other = Ok (TrimSpace (written stmts))
    ∧ (SQLiteTable.Modified (SQLiteTable.DiffColumns t0 other) ≠ []
       ∨ SQLiteTable.ForeignKeysChanged (SQLiteTable.DiffColumns t0 other) = true →
       (∃ exprs, stmts = rebuildProtocol t0 exprs)
       ∧ Forall (λ s, isColumnAlteration s = false) stmts)
    ∧ (SQLiteTable.Modified (SQLiteTable.DiffColumns t0 other) = []
       ∧ SQLiteTable.ForeignKeysChanged (SQLiteTable.DiffColumns t0 other) = false →
       Forall (λ s, ∃ table, (∃ old new, s = RenameColumn table old new)
                             ∨ (∃ name, s = DropColumn table name)
                             ∨ (∃ columnDef, s = AddColumn table columnDef)) stmts
       ∧ Forall (λ s, isRebuildStep s = false) stmts).
Proof.
  destruct (SQLiteTable.rebuildTriggered (SQLiteTable.DiffColumns t0 other)) eqn:Htrig.
  - destruct (DiffTableStmts_rebuild iter t0 other Htrig) as (exprs & Hstmts & _).
    exists (rebuildProtocol t0 exprs). split; [done|].
    split; [unfold SQLiteTable.DiffTable; by rewrite Hstmts|]. split.
    + intros _. split; [by exists exprs|].
      eapply Forall_impl; [apply rebuildProtocol_no_column_alteration|]. by intros s [? _].
    + intros [Hm Hfk]. apply rebuildTriggered_iff in Htrig as [?|?]; congruence.
  - destruct (DiffTableStmts_in_place iter t0 other Htrig) as (adds & Hstmts & Hadds).
    eexists. split; [exact Hstmts|].
    split; [unfold SQLiteTable.DiffTable; by rewrite Hstmts|]. split.
    + intros Hyes%rebuildTriggered_iff. congruence.
    + intros _.
      assert (Forall (λ s, ∃ columnDef, s = AddColumn (SQLiteTable.Name t0) columnDef) adds) as Hadd.
      { clear Hstmts. induction Hadds as [|name s added adds (column & _ & ->) _ IH];
          constructor; [by eexists|done]. }
      split; rewrite !Forall_app, !Forall_fmap; repeat split;
        try (apply Forall_forall; intros x _; cbn; by eauto 8);
        (eapply Forall_impl; [exact Hadd|]; intros s [columnDef ->]; cbn; by eauto 8).
Qed.

(** ** Renamed columns *)

(** C3, at a table whose column [name] was split into [first_name] and
    [last_name]: the rename search matches the target column [name] for both
    source columns, since a matched target column stays a candidate; the
    second match overwrites the first in [Renamed], and [first_name] is
    neither Renamed nor Added. Likewise, when [a] and [b] of equal
    attributes become [x] and [y], both [x] and [y] match [a]: [a] is
    renamed to [y], [b] is dropped and [x] is lost. *)
Theorem rename_search_reuses_target_column :
  find (SQLiteTable.renameCandidate namesNew (column "first_name" "TEXT"))
       (SQLiteTable.Columns namesOld) = Some (column "name" "TEXT")
  ∧ find (SQLiteTable.renameCandidate namesNew (column "last_name" "TEXT"))
         (SQLiteTable.Columns namesOld) = Some (column "name" "TEXT")
  ∧ SQLiteTable.Renamed (SQLiteTable.DiffColumns namesNew namesOld)
    = {[ "name" := "last_name" ]}
  ∧ SQLiteTable.Added (SQLiteTable.DiffColumns namesNew namesOld) = []
  ∧ SQLiteTable.Removed (SQLiteTable.DiffColumns namesNew namesOld) = []
  ∧ SQLiteTable.Modified (SQLiteTable.DiffColumns namesNew namesOld) = []
  ∧ SQLiteTable.DiffTableStmts inKeyOrder namesNew namesOld
    = Ok [RenameColumn "users" "name" "last_name"]
  ∧ SQLiteTable.Renamed (SQLiteTable.DiffColumns twinsNew twinsOld) = {[ "a" := "y" ]}
  ∧ SQLiteTable.Added (SQLiteTable.DiffColumns twinsNew twinsOld) = []
  ∧ SQLiteTable.Removed (SQLiteTable.DiffColumns twinsNew twinsOld) = ["b"]
  ∧ SQLiteTable.DiffTableStmts inKeyOrder twinsNew twinsOld
    = Ok [RenameColumn "t" "a" "y"; DropColumn "t" "b"].
Proof.
  split; [reflexivity|]. split; [reflexivity|].
  split; [by vm_compute|]. do 4 (split; [reflexivity|]).
  split; [by vm_compute|]. by repeat split.
Qed.

(** ** Determinism *)

(** C8, at a table with two renamed columns: the RENAME COLUMN statements
    come out in the order in which the runtime enumerates the map
    [Renamed], so two runs on the same two models can return different
    strings. *)
Theorem diff_depends_on_map_order :
  valid_order inKeyOrder
  ∧ valid_order inReverseKeyOrder
  ∧ SQLiteTable.DiffTableStmts inKeyOrder pairNew pairOld
    = Ok [RenameColumn "t" "a" "x"; RenameColumn "t" "b" "y"]
  ∧ SQLiteTable.DiffTableStmts inReverseKeyOrder pairNew pairOld
    = Ok [RenameColumn "t" "b" "y"; RenameColumn "t" "a" "x"]
  ∧ ∃ out1 out2,
      SQLiteDriver.Diff (λ _, inKeyOrder) (sqliteEnv [pairNew] [pairOld] []) sqliteDriver
      = Ok out1
      ∧ SQLiteDriver.Diff (λ _, inReverseKeyOrder) (sqliteEnv [pairNew] [pairOld] []) sqliteDriver
        = Ok out2
      ∧ out1 ≠ out2.
Proof.
  split; [exact valid_inKeyOrder|]. split; [exact valid_inReverseKeyOrder|].
  split; [by vm_compute|]. split; [by vm_compute|].
  eexists _, _. split; [vm_compute; reflexivity|]. split; [vm_compute; reflexivity|].
  discriminate.
Qed.

(** ** Releasing the connections *)

Lemma release_other (db h : sql.DB) (w : sql.World) :
  h ≠ db → h ∈ w → h ∈ sql.release db w.
Proof.
  intros Hne. induction w as [|h' w IH]; cbn; [done|].
  case_bool_decide as Heq.
  - intros [->|Hin]%elem_of_cons; [by subst|done].
  - intros [->|Hin]%elem_of_cons; [apply list_elem_of_here|].
    by apply list_elem_of_further, IH.
Qed.

(** C9, where the code stops early: when closing the source connection
    reports an error, [Close] returns it without closing the target
    connection, whose handle stays open; and when opening the target
    database fails, [NewSQLiteDriver] returns the error and no driver,
    leaving the handle of the source database open. *)
Theorem close_and_open_leave_a_handle_open :
  (∀ (env : SQLiteDriver.Env) (d : SQLiteDriver.t) (w : sql.World) (err : string),
     sql.closeError env (SQLiteDriver.SourceDatabaseConnection d) = Some err →
     SQLiteDriver.TargetDatabaseConnection d ≠ SQLiteDriver.SourceDatabaseConnection d →
     SQLiteDriver.TargetDatabaseConnection d ∈ w →
     (SQLiteDriver.Close env d w).1 = Some err
     ∧ SQLiteDriver.TargetDatabaseConnection d ∈ (SQLiteDriver.Close env d w).2)
  ∧ (∀ (env : SQLiteDriver.Env) (config : SQLiteDriver.SQLLiteDriverConfig)
       (w : sql.World) (err : string),
       sql.openError env (SQLiteDriver.SourceDatabasePath config) = None →
       sql.openError env (SQLiteDriver.TargetDatabasePath config) = Some err →
       (SQLiteDriver.NewSQLiteDriver env config w).1 = Err err
       ∧ (SQLiteDriver.NewSQLiteDriver env config w).2
         = {| sql.dataSourceName := SQLiteDriver.SourceDatabasePath config |} :: w).
Proof.
  split.
  - intros env d w err Hclose Hne Hin.
    unfold SQLiteDriver.Close, sql.Close. rewrite Hclose. cbn.
    split; [done|]. by apply release_other.
  - intros env config w err Hsource Htarget.
    unfold SQLiteDriver.NewSQLiteDriver, sql.Open. rewrite Hsource, Htarget. by cbn.
Qed.

Lemma close_and_open_leave_a_handle_open_witness :
  (SQLiteDriver.Close sourceCloseFails sqliteDriver [targetDB; sourceDB]
   = (Some "database is locked", [targetDB]))
  ∧ (SQLiteDriver.NewSQLiteDriver targetOpenFails sqliteConfig []
     = (Err "unable to open database file", [sourceDB])).
Proof.
  split.
  - destruct (proj1 close_and_open_leave_a_handle_open sourceCloseFails sqliteDriver
                [targetDB; sourceDB] "database is locked") as [_ _].
    + reflexivity.
    + discriminate.
    + apply list_elem_of_here.
    + reflexivity.
  - destruct (proj2 close_and_open_leave_a_handle_open targetOpenFails sqliteConfig
                [] "unable to open database file") as [_ _].
    + reflexivity.
    + reflexivity.
    + reflexivity.
Defined.

(** ** PostgreSQL: in-place alterations only *)

Lemma elem_of_flat_map {A B} (f : A → list B) (l : list A) (y : B) :
  y ∈ flat_map f l ↔ ∃ x, x ∈ l ∧ y ∈ f x.
Proof.
  rewrite list_elem_of_In, in_flat_map. split; intros (x & Hx & Hy); exists x.
  - by rewrite !list_elem_of_In.
  - by rewrite <- !list_elem_of_In.
Qed.

Lemma Forall_flat_map {A B} (P : B → Prop) (f : A → list B) (l : list A) :
  (∀ x, x ∈ l → Forall P (f x)) → Forall P (flat_map f l).
Proof.
  intros H. apply Forall_forall. intros y (x & Hx & Hy)%elem_of_flat_map.
  specialize (H x Hx). rewrite Forall_forall in H. by apply H.
Qed.

Section PostgresInPlace.
Context {PostgresIndex PostgresTrigger : Type}.
Context {DI : Definable.t PostgresIndex} {DT : Definable.t PostgresTrigger}.

Lemma alterColumnStmts_kinds (t0 : PostgresTable.t PostgresIndex PostgresTrigger)
    (sc tc : PostgresColumn.t) :
  Forall (λ s, isColumnAlteration s = true ∧ isRenameColumn s = false ∧ replacesTable s = false)
         (PostgresTable.alterColumnStmts t0 sc tc).
Proof.
  unfold PostgresTable.alterColumnStmts.
  repeat (case_match || case_bool_decide); cbn; repeat constructor.
Qed.

Lemma columnStmts_kinds (t0 other : PostgresTable.t PostgresIndex PostgresTrigger) :
  Forall (λ s, isColumnAlteration s = true ∧ isRenameColumn s = false ∧ replacesTable s = false)
         (PostgresTable.columnStmts t0 other).
Proof.
  unfold PostgresTable.columnStmts. apply Forall_app. split; apply Forall_flat_map; intros c _.
  - case_match; [apply alterColumnStmts_kinds|by repeat constructor].
  - case_match; by repeat constructor.
Qed.

Lemma DiffTableStmts_kinds (t0 other : PostgresTable.t PostgresIndex PostgresTrigger) :
  Forall (λ s, isRenameColumn s = false ∧ replacesTable s = false)
         (PostgresTable.DiffTableStmts t0 other).
Proof.
  unfold PostgresTable.DiffTableStmts. rewrite !Forall_app. repeat split.
  - eapply Forall_impl; [apply columnStmts_kinds|]. by intros s (_ & ? & ?).
  - unfold PostgresTable.constraintStmts. apply Forall_app.
    split; apply Forall_flat_map; intros c _;
      repeat (case_match || case_bool_decide); by repeat constructor.
  - unfold PostgresTable.indexStmts. apply Forall_app.
    split; apply Forall_flat_map; intros c _;
      repeat (case_match || case_bool_decide); by repeat constructor.
  - unfold PostgresTable.triggerStmts. apply Forall_app.
    split; apply Forall_flat_map; intros c _;
      repeat (case_match || case_bool_decide); by repeat constructor.
Qed.

Lemma PostgresColumn_differ (sc tc : PostgresColumn.t) :
  PostgresColumn.Name sc = PostgresColumn.Name tc →
  sc ≠ tc →
  PostgresColumn.Type_ sc ≠ PostgresColumn.Type_ tc
  ∨ PostgresColumn.NotNull sc ≠ PostgresColumn.NotNull tc
  ∨ PostgresColumn.Default sc ≠ PostgresColumn.Default tc.
Proof.
  destruct sc as [n1 ty1 nn1 d1], tc as [n2 ty2 nn2 d2]. cbn. intros -> Hne.
  destruct (decide (ty1 = ty2)) as [->|]; [|by left].
  destruct (decide (nn1 = nn2)) as [->|]; [|by right; left].
  destruct (decide (d1 = d2)) as [->|]; [done|by right; right].
Qed.

Lemma alterColumnStmts_complete (t0 : PostgresTable.t PostgresIndex PostgresTrigger)
    (sc tc : PostgresColumn.t) :
  (PostgresColumn.Type_ sc ≠ PostgresColumn.Type_ tc →
   AlterColumnType (PostgresTable.Name t0) (PostgresColumn.Name sc) (PostgresColumn.Type_ sc)
     ∈ PostgresTable.alterColumnStmts t0 sc tc)
  ∧ (PostgresColumn.NotNull sc ≠ PostgresColumn.NotNull tc →
     (if PostgresColumn.NotNull sc
      then SetNotNull (PostgresTable.Name t0) (PostgresColumn.Name sc)
      else DropNotNull (PostgresTable.Name t0) (PostgresColumn.Name sc))
       ∈ PostgresTable.alterColumnStmts t0 sc tc)
  ∧ (PostgresColumn.Default sc ≠ PostgresColumn.Default tc →
     (if Valid (PostgresColumn.Default sc)
      then SetDefault (PostgresTable.Name t0) (PostgresColumn.Name sc)
                      (String_ (PostgresColumn.Default sc))
      else DropDefault (PostgresTable.Name t0) (PostgresColumn.Name sc))
       ∈ PostgresTable.alterColumnStmts t0 sc tc).
Proof.
  assert (∀ P : Prop, (P → sc ≠ PostgresColumn.withName tc (PostgresColumn.Name sc)) →
          P → PostgresColumn.HasEqualAttributes sc tc = false) as Hneq.
  { intros P HP p. apply bool_decide_eq_false_2. intros Heq. apply (HP p).
    rewrite <- Heq. by destruct sc. }
  unfold PostgresTable.alterColumnStmts. repeat split; intros Hdiff.
  - rewrite (Hneq _ (λ (H : PostgresColumn.Type_ sc ≠ PostgresColumn.Type_ tc) E,
                       H (f_equal PostgresColumn.Type_ E)) Hdiff).
    cbn. rewrite bool_decide_eq_true_2 by done. set_solver.
  - rewrite (Hneq _ (λ (H : PostgresColumn.NotNull sc ≠ PostgresColumn.NotNull tc) E,
                       H (f_equal PostgresColumn.NotNull E)) Hdiff).
    cbn. rewrite (bool_decide_eq_true_2 (PostgresColumn.NotNull sc ≠ _)) by done.
    destruct (PostgresColumn.NotNull sc); set_solver.
  - rewrite (Hneq _ (λ (H : PostgresColumn.Default sc ≠ PostgresColumn.Default tc) E,
                       H (f_equal PostgresColumn.Default E)) Hdiff).
    cbn. rewrite (bool_decide_eq_true_2 (PostgresColumn.Default sc ≠ _)) by done.
    destruct (Valid (PostgresColumn.Default sc)); set_solver.
Qed.

(** C7: [PostgresTable.DiffTable] turns every column difference into an
    in-place alteration: ADD COLUMN for a column of the source only, DROP
    COLUMN for a column of the target only (also when the two have equal
    attributes: renames are not detected), ALTER COLUMN TYPE, SET or DROP
    NOT NULL and SET or DROP DEFAULT for the attributes that differ; no
    statement renames a column or replaces the table. *)
Theorem postgres_column_changes_in_place
    (t0 other : PostgresTable.t PostgresIndex PostgresTrigger) :
  PostgresTable.DiffTable t0 other
  = Ok (TrimSpace (written (PostgresTable.DiffTableStmts t0 other)))
  ∧ Forall (λ s, isRenameColumn s = false ∧ replacesTable s = false)
           (PostgresTable.DiffTableStmts t0 other)
  ∧ Forall (λ s, isColumnAlteration s = true) (PostgresTable.columnStmts t0 other)
  ∧ (∀ sc, sc ∈ PostgresTable.Columns t0 →
           PostgresTable.ColumnByName other (PostgresColumn.Name sc) = None →
           AddColumn (PostgresTable.Name t0) (PostgresColumn.String sc)
             ∈ PostgresTable.DiffTableStmts t0 other)
  ∧ (∀ tc, tc ∈ PostgresTable.Columns other →
           PostgresTable.ColumnByName t0 (PostgresColumn.Name tc) = None →
           DropColumn (PostgresTable.Name t0) (PostgresColumn.Name tc)
             ∈ PostgresTable.DiffTableStmts t0 other)
  ∧ (∀ sc tc, sc ∈ PostgresTable.Columns t0 → tc ∈ PostgresTable.Columns other →
              PostgresTable.ColumnByName other (PostgresColumn.Name sc) = None →
              PostgresTable.ColumnByName t0 (PostgresColumn.Name tc) = None →
              PostgresColumn.HasEqualAttributes tc sc = true →
              AddColumn (PostgresTable.Name t0) (PostgresColumn.String sc)
                ∈ PostgresTable.DiffTableStmts t0 other
              ∧ DropColumn (PostgresTable.Name t0) (PostgresColumn.Name tc)
                  ∈ PostgresTable.DiffTableStmts t0 other)
  ∧ (∀ sc tc, sc ∈ PostgresTable.Columns t0 →
              PostgresTable.ColumnByName other (PostgresColumn.Name sc) = Some tc →
              PostgresTable.alterColumnStmts t0 sc tc ⊆ PostgresTable.DiffTableStmts t0 other
              ∧ (sc ≠ tc → PostgresTable.alterColumnStmts t0 sc tc ≠ [])
              ∧ (PostgresColumn.Type_ sc ≠ PostgresColumn.Type_ tc →
                 AlterColumnType (PostgresTable.Name t0) (PostgresColumn.Name sc)
                                 (PostgresColumn.Type_ sc)
                   ∈ PostgresTable.alterColumnStmts t0 sc tc)
              ∧ (PostgresColumn.NotNull sc ≠ PostgresColumn.NotNull tc →
                 (if PostgresColumn.NotNull sc
                  then SetNotNull (PostgresTable.Name t0) (PostgresColumn.Name sc)
                  else DropNotNull (PostgresTable.Name t0) (PostgresColumn.Name sc))
                   ∈ PostgresTable.alterColumnStmts t0 sc tc)
              ∧ (PostgresColumn.Default sc ≠ PostgresColumn.Default tc →
                 (if Valid (PostgresColumn.Default sc)
                  then SetDefault (PostgresTable.Name t0) (PostgresColumn.Name sc)
                                  (String_ (PostgresColumn.Default sc))
                  else DropDefault (PostgresTable.Name t0) (PostgresColumn.Name sc))
                   ∈ PostgresTable.alterColumnStmts t0 sc tc)).
Proof.
  assert (∀ sc, sc ∈ PostgresTable.Columns t0 →
                PostgresTable.ColumnByName other (PostgresColumn.Name sc) = None →
                AddColumn (PostgresTable.Name t0) (PostgresColumn.String sc)
                  ∈ PostgresTable.DiffTableStmts t0 other) as Hadd.
  { intros sc Hsc Hnone. unfold PostgresTable.DiffTableStmts, PostgresTable.columnStmts.
    rewrite !elem_of_app. left. left. apply elem_of_flat_map. exists sc.
    split; [done|]. rewrite Hnone. apply list_elem_of_here. }
  assert (∀ tc, tc ∈ PostgresTable.Columns other →
                PostgresTable.ColumnByName t0 (PostgresColumn.Name tc) = None →
                DropColumn (PostgresTable.Name t0) (PostgresColumn.Name tc)
                  ∈ PostgresTable.DiffTableStmts t0 other) as Hdrop.
  { intros tc Htc Hnone. unfold PostgresTable.DiffTableStmts, PostgresTable.columnStmts.
    rewrite !elem_of_app. left. right. apply elem_of_flat_map. exists tc.
    split; [done|]. rewrite Hnone. apply list_elem_of_here. }
  split; [done|]. split; [apply DiffTableStmts_kinds|]. split.
  { eapply Forall_impl; [apply columnStmts_kinds|]. by intros s (? & _). }
  split; [exact Hadd|]. split; [exact Hdrop|]. split.
  { intros sc tc Hsc Htc Hs Ht _. split; [by apply Hadd|by apply Hdrop]. }
  intros sc tc Hsc Htc.
  destruct (alterColumnStmts_complete t0 sc tc) as (Hty & Hnn & Hdef).
  split.
  { intros s Hs. unfold PostgresTable.DiffTableStmts, PostgresTable.columnStmts.
    rewrite !elem_of_app. left. left. apply elem_of_flat_map. exists sc.
    split; [done|]. by rewrite Htc. }
  split; [|done].
  intros Hne Hnil.
  assert (PostgresColumn.Name sc = PostgresColumn.Name tc) as Hname.
  { apply find_some_elem in Htc as [_ Hn]. by apply bool_decide_eq_true in Hn. }
  destruct (PostgresColumn_differ sc tc Hname Hne) as [Hd|[Hd|Hd]].
  - apply Hty in Hd. rewrite Hnil in Hd. by apply elem_of_nil in Hd.
  - apply Hnn in Hd. rewrite Hnil in Hd. by apply elem_of_nil in Hd.
  - apply Hdef in Hd. rewrite Hnil in Hd. by apply elem_of_nil in Hd.
Qed.

End PostgresInPlace.

Example postgres_rename_is_add_and_drop :
  PostgresColumn.HasEqualAttributes (pgColumn "name" "text") (pgColumn "full_name" "text") = true
  ∧ PostgresTable.DiffTableStmts pgUsersNew pgUsersOld
    = [ AddColumn "users" (PostgresColumn.String (pgColumn "full_name" "text"));
        DropColumn "users" "name" ].
Proof. split; reflexivity. Qed.

(** * The tests of the repository, replayed on the model *)

(** [TestSQLiteDriver/NoChanges] *)
Example test_NoChanges :
  SQLiteDriver.Diff (λ _, inKeyOrder) (sqliteEnv [] [] []) sqliteDriver = Ok EmptyString.
Proof. reflexivity. Qed.

(** [TestSQLiteDriver/CreateTables] *)
Example test_CreateTables :
  SQLiteDriver.Diff (λ _, inKeyOrder) (sqliteEnv [testUsers] [] []) sqliteDriver
  = Ok ("CREATE TABLE " +:+ dquote +:+ "users" +:+ dquote +:+ " (" +:+ nl
        +:+ tab +:+ dquote +:+ "id" +:+ dquote +:+ " INTEGER PRIMARY KEY," +:+ nl
        +:+ tab +:+ dquote +:+ "name" +:+ dquote +:+ " TEXT NOT NULL" +:+ nl
        +:+ ");").
Proof. vm_compute. reflexivity. Qed.

(** [TestSQLiteDriver/RenameColumn] *)
Example test_RenameColumn :
  SQLiteDriver.Diff (λ _, inKeyOrder) (sqliteEnv [testUsersFullName] [testUsers] []) sqliteDriver
  = Ok ("ALTER TABLE " +:+ dquote +:+ "users" +:+ dquote +:+ " RENAME COLUMN "
        +:+ dquote +:+ "name" +:+ dquote +:+ " TO " +:+ dquote +:+ "full_name" +:+ dquote
        +:+ ";").
Proof. vm_compute. reflexivity. Qed.

(** [TestSQLiteDriver/ModifyColumnType] *)
Example test_ModifyColumnType :
  SQLiteDriver.Diff (λ _, inKeyOrder)
    (sqliteEnv [testUsersAge "INTEGER"] [testUsersAge "TEXT"] []) sqliteDriver
  = Ok ("CREATE TABLE " +:+ dquote +:+ "_users_temp" +:+ dquote +:+ " (" +:+ nl
        +:+ tab +:+ dquote +:+ "id" +:+ dquote +:+ " INTEGER PRIMARY KEY," +:+ nl
        +:+ tab +:+ dquote +:+ "name" +:+ dquote +:+ " TEXT NOT NULL," +:+ nl
        +:+ tab +:+ dquote +:+ "age" +:+ dquote +:+ " INTEGER" +:+ nl
        +:+ ");" +:+ nl
        +:+ "INSERT INTO " +:+ dquote +:+ "_users_temp" +:+ dquote
        +:+ " (" +:+ dquote +:+ "id" +:+ dquote +:+ ", " +:+ dquote +:+ "name" +:+ dquote
        +:+ ", " +:+ dquote +:+ "age" +:+ dquote +:+ ") SELECT "
        +:+ dquote +:+ "id" +:+ dquote +:+ ", " +:+ dquote +:+ "name" +:+ dquote
        +:+ ", " +:+ dquote +:+ "age" +:+ dquote +:+ " FROM " +:+ dquote +:+ "users" +:+ dquote
        +:+ ";" +:+ nl
        +:+ "DROP TABLE " +:+ dquote +:+ "users" +:+ dquote +:+ ";" +:+ nl
        +:+ "ALTER TABLE " +:+ dquote +:+ "_users_temp" +:+ dquote +:+ " RENAME TO "
        +:+ dquote +:+ "users" +:+ dquote +:+ ";").
Proof. vm_compute. reflexivity. Qed.

(** [TestPostgresDriver/AlterColumnType] *)
Example test_AlterColumnType :
  PostgresDriver.Diff
    (postgresEnv [pgTable "users" [pgColumn "id" "integer"; pgColumn "name" "text"]]
                 [pgTable "users" [pgColumn "id" "integer";
                                   pgColumn "name" "character varying"]] [])
    postgresDriver
  = Ok ("ALTER TABLE " +:+ dquote +:+ "users" +:+ dquote +:+ " ALTER COLUMN "
        +:+ dquote +:+ "name" +:+ dquote +:+ " TYPE text;").
Proof. vm_compute. reflexivity. Qed.

(** * Further properties of the code *)

(** ** What puts a name into a list of the classification *)

Lemma ContainsKey_is_Some (m : gmap string string) (k : string) :
  ContainsKey m k = true ↔ is_Some (m !! k).
Proof.
  unfold ContainsKey. rewrite bool_decide_eq_true, list_elem_of_fmap. split.
  - intros ([k' v] & -> & Hin). apply elem_of_map_to_list in Hin. by exists v.
  - intros [v Hv]. exists (k, v). split; [done|]. by apply elem_of_map_to_list.
Qed.

Lemma renameCandidate_true (t0 : SQLiteTable.t) (sc c : SQLiteColumn.t) :
  SQLiteTable.renameCandidate t0 sc c = true
  ↔ ¬ hasColumnNamed t0 (SQLiteColumn.Name c) ∧ SQLiteColumn.HasEqualAttributes c sc = true.
Proof.
  unfold SQLiteTable.renameCandidate.
  rewrite andb_true_iff, negb_true_iff, bool_decide_eq_false.
  by rewrite ColumnByName_is_Some.
Qed.

(** What a recorded rename [old ↦ new] stands for. *)
Definition renamePair (t0 other : SQLiteTable.t) (old new : string) : Prop :=
  ∃ tc sc,
    tc ∈ SQLiteTable.Columns other ∧ SQLiteColumn.Name tc = old
    ∧ sc ∈ SQLiteTable.Columns t0 ∧ SQLiteColumn.Name sc = new
    ∧ ¬ hasColumnNamed t0 old
    ∧ ¬ hasColumnNamed other new
    ∧ SQLiteColumn.HasEqualAttributes tc sc = true.

Lemma Renamed_inv (t0 other : SQLiteTable.t) (old new : string) :
  SQLiteTable.Renamed (SQLiteTable.DiffColumns t0 other) !! old = Some new →
  renamePair t0 other old new.
Proof.
  destruct (DiffColumns_lists t0 other) as (_ & _ & _ & ->).
  destruct (afterTargetColumns_keeps t0 other) as (_ & _ & ->).
  unfold afterSourceColumns. revert old new.
  apply (foldl_invariant
           (λ d, ∀ old new, SQLiteTable.Renamed d !! old = Some new → renamePair t0 other old new)).
  - intros old new Hin. cbn in Hin. by rewrite lookup_empty in Hin.
  - intros d c Hc Hd old new. unfold SQLiteTable.diffSourceColumn.
    destruct (SQLiteTable.ColumnByName other (SQLiteColumn.Name c)) as [tc|] eqn:Htc.
    + repeat (case_match || case_bool_decide); cbn; apply Hd.
    + destruct (find _ _) as [r|] eqn:Hr; cbn; [|apply Hd].
      apply find_some_elem in Hr as [Hrin [Hrt Hattr]%renameCandidate_true].
      destruct (decide (SQLiteColumn.Name r = old)) as [<-|Hne].
      * rewrite lookup_insert_eq. intros [= <-]. exists r, c. repeat split; try done.
        rewrite <- ColumnByName_is_Some, Htc. by intros [? ?].
      * rewrite lookup_insert_ne by done. apply Hd.
Qed.

Lemma target_column_step (t0 other : SQLiteTable.t) (tc : SQLiteColumn.t) :
  tc ∈ SQLiteTable.Columns other →
  ∃ d, SQLiteTable.Renamed d = SQLiteTable.Renamed (afterSourceColumns t0 other)
       ∧ diff_le (SQLiteTable.diffTargetColumn t0 d tc) (afterTargetColumns t0 other).
Proof.
  intros (l1 & l2 & Hsplit)%list_elem_of_split.
  exists (foldl (SQLiteTable.diffTargetColumn t0) (afterSourceColumns t0 other) l1). split.
  - apply (foldl_invariant
             (λ d, SQLiteTable.Renamed d = SQLiteTable.Renamed (afterSourceColumns t0 other)));
      [done|].
    intros d c _ Hd. by destruct (diffTargetColumn_keeps t0 d c) as (_ & _ & -> & _).
  - unfold afterTargetColumns. rewrite Hsplit, foldl_app. cbn [foldl].
    apply (foldl_diff_le (SQLiteTable.diffTargetColumn t0)), diffTargetColumn_le.
Qed.

(** What puts a name into [Removed]: an incompatible type change of a
    column of both tables, or a target column that the source lacks and
    that is not the old name of a rename. *)
Lemma Removed_inv (t0 other : SQLiteTable.t) (name : string) :
  name ∈ SQLiteTable.Removed (SQLiteTable.DiffColumns t0 other) →
  hasColumnNamed other name
  ∧ (hasColumnNamed t0 name
     ∨ SQLiteTable.Renamed (SQLiteTable.DiffColumns t0 other) !! name = None).
Proof.
  destruct (DiffColumns_lists t0 other) as (_ & _ & -> & ->).
  destruct (afterTargetColumns_keeps t0 other) as (_ & _ & ->).
  unfold afterTargetColumns. revert name.
  apply (foldl_invariant
           (λ d, SQLiteTable.Renamed d = SQLiteTable.Renamed (afterSourceColumns t0 other)
                 ∧ ∀ name, name ∈ SQLiteTable.Removed d →
                     hasColumnNamed other name
                     ∧ (hasColumnNamed t0 name
                        ∨ SQLiteTable.Renamed (afterSourceColumns t0 other) !! name = None))).
  - split; [done|]. unfold afterSourceColumns.
    apply (foldl_invariant
             (λ d, ∀ name, name ∈ SQLiteTable.Removed d →
                   hasColumnNamed other name
                   ∧ (hasColumnNamed t0 name
                      ∨ SQLiteTable.Renamed (afterSourceColumns t0 other) !! name = None))).
    + intros name Hin. by apply elem_of_nil in Hin.
    + intros d c Hc Hd name. unfold SQLiteTable.diffSourceColumn.
      destruct (SQLiteTable.ColumnByName other (SQLiteColumn.Name c)) as [tc|] eqn:Htc.
      * apply ColumnByName_Some_name in Htc as [Htcin Hname].
        repeat (case_match || case_bool_decide); cbn; try apply Hd;
          (intros [Hin| ->%list_elem_of_singleton]%elem_of_app; [by apply Hd|]);
          (split; [by exists tc|]; left; exists c; by rewrite Hname).
      * case_match; cbn; apply Hd.
  - intros d c Hc [Hren Hd]. split.
    + by destruct (diffTargetColumn_keeps t0 d c) as (_ & _ & -> & _).
    + intros name. unfold SQLiteTable.diffTargetColumn.
      destruct (negb _ && negb _) eqn:Hcond; cbn; [|apply Hd].
      intros [Hin| ->%list_elem_of_singleton]%elem_of_app; [by apply Hd|].
      split; [by exists c|]. right.
      apply andb_true_iff in Hcond as [_ Hkey%negb_true_iff].
      rewrite <- Hren. apply eq_None_not_Some. rewrite <- ContainsKey_is_Some. congruence.
Qed.

(** What puts a name into [Added]: a source column without a namesake in
    the target and without a rename candidate, or with a namesake of
    another, incompatible type. *)
Lemma Added_inv (t0 other : SQLiteTable.t) (name : string) :
  name ∈ SQLiteTable.Added (SQLiteTable.DiffColumns t0 other) →
  ∃ sc,
    sc ∈ SQLiteTable.Columns t0 ∧ SQLiteColumn.Name sc = name
    ∧ ((SQLiteTable.ColumnByName other name = None
        ∧ find (SQLiteTable.renameCandidate t0 sc) (SQLiteTable.Columns other) = None)
       ∨ ∃ tc, SQLiteTable.ColumnByName other name = Some tc
               ∧ SQLiteColumn.Type_ sc ≠ SQLiteColumn.Type_ tc
               ∧ SQLiteColumn.IsTypeChangeCompatible sc tc = false).
Proof.
  destruct (DiffColumns_lists t0 other) as (-> & _).
  destruct (afterTargetColumns_keeps t0 other) as (-> & _).
  unfold afterSourceColumns. revert name.
  apply (foldl_invariant
           (λ d, ∀ name, name ∈ SQLiteTable.Added d →
                 ∃ sc, sc ∈ SQLiteTable.Columns t0 ∧ SQLiteColumn.Name sc = name
                   ∧ ((SQLiteTable.ColumnByName other name = None
                       ∧ find (SQLiteTable.renameCandidate t0 sc) (SQLiteTable.Columns other) = None)
                      ∨ ∃ tc, SQLiteTable.ColumnByName other name = Some tc
                              ∧ SQLiteColumn.Type_ sc ≠ SQLiteColumn.Type_ tc
                              ∧ SQLiteColumn.IsTypeChangeCompatible sc tc = false))).
  - intros name Hin. by apply elem_of_nil in Hin.
  - intros d c Hc Hd name. unfold SQLiteTable.diffSourceColumn.
    destruct (SQLiteTable.ColumnByName other (SQLiteColumn.Name c)) as [tc|] eqn:Htc.
    + destruct (bool_decide (c = tc)); [apply Hd|].
      case_bool_decide as Hty; [|apply Hd].
      destruct (SQLiteColumn.IsTypeChangeCompatible c tc) eqn:Hcompat; cbn; [apply Hd|].
      intros [Hin| ->%list_elem_of_singleton]%elem_of_app; [by apply Hd|].
      exists c. split; [done|]. split; [done|]. right. by exists tc.
    + destruct (find _ _) as [r|] eqn:Hr; cbn; [apply Hd|].
      intros [Hin| ->%list_elem_of_singleton]%elem_of_app; [by apply Hd|].
      exists c. split; [done|]. split; [done|]. by left.
Qed.

(** The two ways into [Removed], in full. *)
Lemma Removed_inv_full (t0 other : SQLiteTable.t) (name : string) :
  name ∈ SQLiteTable.Removed (SQLiteTable.DiffColumns t0 other) →
  (∃ sc tc, sc ∈ SQLiteTable.Columns t0 ∧ SQLiteColumn.Name sc = name
            ∧ SQLiteTable.ColumnByName other name = Some tc
            ∧ SQLiteColumn.Type_ sc ≠ SQLiteColumn.Type_ tc
            ∧ SQLiteColumn.IsTypeChangeCompatible sc tc = false)
  ∨ (hasColumnNamed other name ∧ ¬ hasColumnNamed t0 name).
Proof.
  destruct (DiffColumns_lists t0 other) as (_ & _ & -> & _).
  unfold afterTargetColumns. revert name.
  apply (foldl_invariant
           (λ d, ∀ name, name ∈ SQLiteTable.Removed d →
                 (∃ sc tc, sc ∈ SQLiteTable.Columns t0 ∧ SQLiteColumn.Name sc = name
                           ∧ SQLiteTable.ColumnByName other name = Some tc
                           ∧ SQLiteColumn.Type_ sc ≠ SQLiteColumn.Type_ tc
                           ∧ SQLiteColumn.IsTypeChangeCompatible sc tc = false)
                 ∨ (hasColumnNamed other name ∧ ¬ hasColumnNamed t0 name))).
  - unfold afterSourceColumns.
    apply (foldl_invariant
             (λ d, ∀ name, name ∈ SQLiteTable.Removed d →
                   (∃ sc tc, sc ∈ SQLiteTable.Columns t0 ∧ SQLiteColumn.Name sc = name
                             ∧ SQLiteTable.ColumnByName other name = Some tc
                             ∧ SQLiteColumn.Type_ sc ≠ SQLiteColumn.Type_ tc
                             ∧ SQLiteColumn.IsTypeChangeCompatible sc tc = false)
                   ∨ (hasColumnNamed other name ∧ ¬ hasColumnNamed t0 name))).
    + intros name Hin. by apply elem_of_nil in Hin.
    + intros d c Hc Hd name. unfold SQLiteTable.diffSourceColumn.
      destruct (SQLiteTable.ColumnByName other (SQLiteColumn.Name c)) as [tc|] eqn:Htc.
      * destruct (bool_decide (c = tc)); [apply Hd|].
        case_bool_decide as Hty; [|apply Hd].
        destruct (SQLiteColumn.IsTypeChangeCompatible c tc) eqn:Hcompat; cbn; [apply Hd|].
        intros [Hin| ->%list_elem_of_singleton]%elem_of_app; [by apply Hd|].
        left. exists c, tc.
        pose proof (ColumnByName_Some_name _ _ _ Htc) as [_ Hname].
        rewrite Hname. by repeat split.
      * destruct (find _ _) as [r|]; cbn; apply Hd.
  - intros d c Hc Hd name. unfold SQLiteTable.diffTargetColumn.
    destruct (negb _ && negb _) eqn:Hcond; cbn; [|apply Hd].
    intros [Hin| ->%list_elem_of_singleton]%elem_of_app; [by apply Hd|].
    right. split; [by exists c|].
    apply andb_true_iff in Hcond as [Hfound%negb_true_iff _].
    rewrite <- ColumnByName_is_Some. by apply bool_decide_eq_false in Hfound.
Qed.

(** The step of the first loop for a source column without a namesake. *)
Lemma new_column_step (t0 other : SQLiteTable.t) (d : SQLiteTable.ColumnsDiff)
    (sc : SQLiteColumn.t) :
  SQLiteTable.ColumnByName other (SQLiteColumn.Name sc) = None →
  SQLiteTable.diffSourceColumn t0 other d sc
  = match find (SQLiteTable.renameCandidate t0 sc) (SQLiteTable.Columns other) with
    | Some r => SQLiteTable.setRenamed d (SQLiteColumn.Name r) (SQLiteColumn.Name sc)
    | None => SQLiteTable.addAdded d (SQLiteColumn.Name sc)
    end.
Proof. intros Hnone. unfold SQLiteTable.diffSourceColumn. by rewrite Hnone. Qed.

(** The step for a source column whose namesake differs in an attribute
    other than the type. *)
Lemma same_type_step (t0 other : SQLiteTable.t) (d : SQLiteTable.ColumnsDiff)
    (sc tc : SQLiteColumn.t) :
  SQLiteTable.ColumnByName other (SQLiteColumn.Name sc) = Some tc →
  sc ≠ tc →
  SQLiteColumn.Type_ sc = SQLiteColumn.Type_ tc →
  SQLiteTable.diffSourceColumn t0 other d sc
  = SQLiteTable.addModified d (SQLiteColumn.Name sc).
Proof.
  intros Htc Hne Hty. unfold SQLiteTable.diffSourceColumn. rewrite Htc.
  rewrite bool_decide_eq_false_2 by done.
  by rewrite bool_decide_eq_false_2 by (by intros ?).
Qed.

(** ** The column classification names existing columns *)

(** X1: [DiffColumns] classifies existing columns only: a name in [Added]
    is the name of a source column, a name in [Removed] the name of a target
    column, and a name in [Modified] the name of a column of both. *)
Theorem classification_names_columns (t0 other : SQLiteTable.t) (name : string) :
  (name ∈ SQLiteTable.Added (SQLiteTable.DiffColumns t0 other) → hasColumnNamed t0 name)
  ∧ (name ∈ SQLiteTable.Modified (SQLiteTable.DiffColumns t0 other) →
     hasColumnNamed t0 name ∧ hasColumnNamed other name)
  ∧ (name ∈ SQLiteTable.Removed (SQLiteTable.DiffColumns t0 other) →
     hasColumnNamed other name).
Proof.
  split; [apply Added_source_names|]. split.
  - intros (sc & tc & Hsc & Hname & Htc & _)%Modified_inv.
    split; [by exists sc|]. apply ColumnByName_is_Some. by eexists.
  - by intros [? _]%Removed_inv.
Qed.

(** X2: every entry [old ↦ new] of [Renamed] pairs a target column named
    [old], which the source lacks, with a source column named [new], which
    the target lacks, and the two columns agree on every attribute but the
    name. *)
Theorem renamed_entries_pair_columns (t0 other : SQLiteTable.t) (old new : string) :
  SQLiteTable.Renamed (SQLiteTable.DiffColumns t0 other) !! old = Some new →
  ∃ tc sc,
    tc ∈ SQLiteTable.Columns other ∧ SQLiteColumn.Name tc = old
    ∧ sc ∈ SQLiteTable.Columns t0 ∧ SQLiteColumn.Name sc = new
    ∧ ¬ hasColumnNamed t0 old
    ∧ ¬ hasColumnNamed other new
    ∧ SQLiteColumn.Type_ tc = SQLiteColumn.Type_ sc
    ∧ SQLiteColumn.NotNull tc = SQLiteColumn.NotNull sc
    ∧ SQLiteColumn.PrimaryKey tc = SQLiteColumn.PrimaryKey sc
    ∧ SQLiteColumn.Default tc = SQLiteColumn.Default sc.
Proof.
  intros (tc & sc & Htc & Hold & Hsc & Hnew & Hnt & Hno & Hattr)%Renamed_inv.
  exists tc, sc. repeat split; try done;
    apply bool_decide_eq_true in Hattr; by rewrite <- Hattr.
Qed.

Lemma renamed_entries_pair_columns_witness :
  ∃ tc sc,
    tc ∈ SQLiteTable.Columns usersOld ∧ SQLiteColumn.Name tc = "name"
    ∧ sc ∈ SQLiteTable.Columns usersNew ∧ SQLiteColumn.Name sc = "full_name"
    ∧ ¬ hasColumnNamed usersNew "name"
    ∧ ¬ hasColumnNamed usersOld "full_name"
    ∧ SQLiteColumn.Type_ tc = SQLiteColumn.Type_ sc
    ∧ SQLiteColumn.NotNull tc = SQLiteColumn.NotNull sc
    ∧ SQLiteColumn.PrimaryKey tc = SQLiteColumn.PrimaryKey sc
    ∧ SQLiteColumn.Default tc = SQLiteColumn.Default sc.
Proof.
  apply (renamed_entries_pair_columns usersNew usersOld "name" "full_name").
  by vm_compute.
Defined.

(** X3: a column is never both dropped and renamed, and every column that
    only the target has is one of the two: its name is in [Removed] or it
    is the old name of an entry of [Renamed]. *)
Theorem target_only_column_removed_or_renamed (t0 other : SQLiteTable.t) :
  (∀ name, name ∈ SQLiteTable.Removed (SQLiteTable.DiffColumns t0 other) →
           SQLiteTable.Renamed (SQLiteTable.DiffColumns t0 other) !! name = None)
  ∧ (∀ tc, tc ∈ SQLiteTable.Columns other →
           ¬ hasColumnNamed t0 (SQLiteColumn.Name tc) →
           SQLiteColumn.Name tc ∈ SQLiteTable.Removed (SQLiteTable.DiffColumns t0 other)
           ∨ is_Some (SQLiteTable.Renamed (SQLiteTable.DiffColumns t0 other)
                        !! SQLiteColumn.Name tc)).
Proof.
  split.
  - intros name [_ [Hsource|Hnone]]%Removed_inv; [|done].
    apply eq_None_not_Some. intros [new Hnew].
    by apply Renamed_inv in Hnew as (_ & _ & _ & _ & _ & _ & Hnot & _).
  - intros tc Htc Hnot.
    destruct (DiffColumns_lists t0 other) as (_ & _ & -> & ->).
    destruct (afterTargetColumns_keeps t0 other) as (_ & _ & ->).
    destruct (target_column_step t0 other tc Htc) as (d & Hren & _ & _ & Hremoved).
    unfold SQLiteTable.diffTargetColumn in Hremoved.
    rewrite bool_decide_eq_false_2 in Hremoved by (by rewrite ColumnByName_is_Some).
    destruct (ContainsKey (SQLiteTable.Renamed d) (SQLiteColumn.Name tc)) eqn:Hkey.
    + right. rewrite <- Hren. by apply ContainsKey_is_Some.
    + left. apply Hremoved. cbn. set_solver.
Qed.

(** ** Unique column names: each column is classified once *)

(** The first loop over a duplicate-free list of columns: the three lists
    hold names of the columns visited, each at most once, and no name is
    both in [Added] and in [Modified]. *)
Lemma source_loop_once (t0 other : SQLiteTable.t) (l : list SQLiteColumn.t) :
  NoDup (SQLiteColumn.Name <$> l) →
  let d := foldl (SQLiteTable.diffSourceColumn t0 other) SQLiteTable.emptyDiff l in
  NoDup (SQLiteTable.Added d) ∧ NoDup (SQLiteTable.Modified d) ∧ NoDup (SQLiteTable.Removed d)
  ∧ SQLiteTable.Added d ⊆ SQLiteColumn.Name <$> l
  ∧ SQLiteTable.Modified d ⊆ SQLiteColumn.Name <$> l
  ∧ SQLiteTable.Removed d ⊆ SQLiteColumn.Name <$> l
  ∧ (∀ name, name ∈ SQLiteTable.Added d → name ∉ SQLiteTable.Modified d).
Proof.
  induction l as [|c l IH] using rev_ind; intros Hnd d.
  - subst d. cbn. repeat split; try apply NoDup_nil_2; try done.
    intros name Hin. by apply elem_of_nil in Hin.
  - rewrite fmap_app in Hnd. apply NoDup_app in Hnd as (Hnd & Hfresh & _).
    specialize (IH Hnd). cbn zeta in IH.
    destruct IH as (HA & HM & HR & HAs & HMs & HRs & Hdisj).
    assert (SQLiteColumn.Name c ∉ SQLiteColumn.Name <$> l) as Hc.
    { intros Hin. apply (Hfresh _ Hin). cbn. apply list_elem_of_here. }
    subst d. rewrite foldl_app. cbn [foldl].
    set (d := foldl (SQLiteTable.diffSourceColumn t0 other) SQLiteTable.emptyDiff l) in *.
    assert (∀ X : list string, X ⊆ SQLiteColumn.Name <$> l → NoDup X →
            NoDup (X ++ [SQLiteColumn.Name c])) as Hsnoc.
    { intros X HX HndX. apply NoDup_app. split; [done|]. split; [|apply NoDup_singleton].
      intros x Hx ->%list_elem_of_singleton. by apply Hc, HX. }
    assert (∀ X : list string, X ⊆ SQLiteColumn.Name <$> l →
            X ⊆ SQLiteColumn.Name <$> (l ++ [c])) as Hgrow.
    { intros X HX x Hx. rewrite fmap_app. apply elem_of_app. left. by apply HX. }
    assert (∀ X : list string, X ⊆ SQLiteColumn.Name <$> l →
            X ++ [SQLiteColumn.Name c] ⊆ SQLiteColumn.Name <$> (l ++ [c])) as Hgrow'.
    { intros X HX x [Hx| ->%list_elem_of_singleton]%elem_of_app; rewrite fmap_app, elem_of_app;
        [left; by apply HX|right; apply list_elem_of_here]. }
    assert (∀ name, name ∈ SQLiteTable.Added d →
                    name ∉ SQLiteTable.Modified d ++ [SQLiteColumn.Name c]) as Hmod.
    { intros name Hin [Hin'| ->%list_elem_of_singleton]%elem_of_app;
        [by eapply Hdisj|by apply Hc, HAs]. }
    assert (∀ name, name ∈ SQLiteTable.Added d ++ [SQLiteColumn.Name c] →
                    name ∉ SQLiteTable.Modified d) as Hadd.
    { intros name [Hin| ->%list_elem_of_singleton]%elem_of_app;
        [by apply Hdisj|intros Hin; by apply Hc, HMs]. }
    unfold SQLiteTable.diffSourceColumn.
    destruct (SQLiteTable.ColumnByName other (SQLiteColumn.Name c)) as [tc|] eqn:Htc.
    + assert (SQLiteColumn.Name tc = SQLiteColumn.Name c) as Hname
        by (by apply ColumnByName_Some_name in Htc as [_ ?]).
      destruct (bool_decide (c = tc)); [by auto 10|].
      destruct (bool_decide (SQLiteColumn.Type_ c ≠ SQLiteColumn.Type_ tc));
        [destruct (SQLiteColumn.IsTypeChangeCompatible c tc)|]; cbn; rewrite ?Hname;
        by auto 10.
    + destruct (find _ _) as [r|]; cbn; by auto 10.
Qed.

(** The second loop over a duplicate-free list of columns adds each name
    at most once, and only names that the source lacks. *)
Lemma target_loop_once (t0 : SQLiteTable.t) (d0 : SQLiteTable.ColumnsDiff)
    (l : list SQLiteColumn.t) :
  NoDup (SQLiteColumn.Name <$> l) →
  NoDup (SQLiteTable.Removed d0) →
  (∀ name, name ∈ SQLiteTable.Removed d0 → hasColumnNamed t0 name) →
  let d := foldl (SQLiteTable.diffTargetColumn t0) d0 l in
  NoDup (SQLiteTable.Removed d)
  ∧ (∀ name, name ∈ SQLiteTable.Removed d →
             hasColumnNamed t0 name ∨ name ∈ SQLiteColumn.Name <$> l).
Proof.
  intros Hnd Hnd0 Hsrc.
  induction l as [|c l IH] using rev_ind; intros d.
  - subst d. cbn. split; [done|]. intros name Hin. left. by apply Hsrc.
  - rewrite fmap_app in Hnd. apply NoDup_app in Hnd as (Hnd & Hfresh & _).
    specialize (IH Hnd). cbn zeta in IH. destruct IH as (HR & Hin).
    subst d. rewrite foldl_app. cbn [foldl].
    set (d := foldl (SQLiteTable.diffTargetColumn t0) d0 l) in *.
    unfold SQLiteTable.diffTargetColumn.
    destruct (negb _ && negb _) eqn:Hcond; cbn.
    + apply andb_true_iff in Hcond as [Hfound%negb_true_iff _].
      apply bool_decide_eq_false in Hfound. rewrite ColumnByName_is_Some in Hfound.
      split.
      * apply NoDup_app. split; [done|]. split; [|apply NoDup_singleton].
        intros x Hx ->%list_elem_of_singleton.
        destruct (Hin _ Hx) as [?|Hl]; [done|].
        apply (Hfresh _ Hl). cbn. apply list_elem_of_here.
      * intros name [Hx| ->%list_elem_of_singleton]%elem_of_app.
        -- destruct (Hin _ Hx) as [?|Hl]; [by left|right].
           rewrite fmap_app. apply elem_of_app. by left.
        -- right. rewrite fmap_app. apply elem_of_app. right. apply list_elem_of_here.
    + split; [done|]. intros name Hx.
      destruct (Hin _ Hx) as [?|Hl]; [by left|right].
      rewrite fmap_app. apply elem_of_app. by left.
Qed.

(** X4: when the column names of each table are unique, no name occurs
    twice in [Added], [Modified] or [Removed], and no name is both in
    [Added] and in [Modified]: the in-place branch adds or drops a column
    at most once. *)
Theorem classification_lists_without_duplicates (t0 other : SQLiteTable.t) :
  NoDup (SQLiteColumn.Name <$> SQLiteTable.Columns t0) →
  NoDup (SQLiteColumn.Name <$> SQLiteTable.Columns other) →
  NoDup (SQLiteTable.Added (SQLiteTable.DiffColumns t0 other))
  ∧ NoDup (SQLiteTable.Modified (SQLiteTable.DiffColumns t0 other))
  ∧ NoDup (SQLiteTable.Removed (SQLiteTable.DiffColumns t0 other))
  ∧ (∀ name, name ∈ SQLiteTable.Added (SQLiteTable.DiffColumns t0 other) →
             name ∉ SQLiteTable.Modified (SQLiteTable.DiffColumns t0 other)).
Proof.
  intros Hsource Htarget.
  destruct (DiffColumns_lists t0 other) as (-> & -> & -> & _).
  destruct (afterTargetColumns_keeps t0 other) as (-> & -> & _).
  destruct (source_loop_once t0 other (SQLiteTable.Columns t0) Hsource)
    as (HA & HM & HR & _ & _ & HRs & Hdisj).
  split; [done|]. split; [done|]. split; [|done].
  apply (target_loop_once t0 (afterSourceColumns t0 other) (SQLiteTable.Columns other));
    [done..|].
  intros name (c & Hc & Hname)%HRs%list_elem_of_fmap. exists c. by split.
Qed.

Lemma classification_lists_without_duplicates_witness :
  NoDup (SQLiteTable.Added (SQLiteTable.DiffColumns usersNew usersOld))
  ∧ NoDup (SQLiteTable.Modified (SQLiteTable.DiffColumns usersNew usersOld))
  ∧ NoDup (SQLiteTable.Removed (SQLiteTable.DiffColumns usersNew usersOld))
  ∧ (∀ name, name ∈ SQLiteTable.Added (SQLiteTable.DiffColumns usersNew usersOld) →
             name ∉ SQLiteTable.Modified (SQLiteTable.DiffColumns usersNew usersOld)).
Proof.
  apply (classification_lists_without_duplicates usersNew usersOld);
    refine (bool_decide_unpack _ _); vm_compute; exact I.
Defined.

Lemma source_column_reaches (t0 other : SQLiteTable.t) (sc : SQLiteColumn.t) :
  sc ∈ SQLiteTable.Columns t0 →
  ∃ d, diff_le (SQLiteTable.diffSourceColumn t0 other d sc) (SQLiteTable.DiffColumns t0 other).
Proof.
  intros Hsc. destruct (source_column_step t0 other sc Hsc) as (d & HA & HM & HR).
  exists d. destruct (DiffColumns_lists t0 other) as (EA & EM & ER & _).
  unfold diff_le. by rewrite EA, EM, ER.
Qed.

(** X5: with unique source column names, a source column falls into
    exactly one case. Without a namesake in the target it is in [Added]
    exactly when the rename search finds nothing, and never in [Modified]
    or [Removed]; equal to its namesake it is in no list; differing from
    its namesake with the same or a compatible type it is in [Modified]
    only; with an incompatible type it is in [Added] and [Removed] only. *)
Theorem source_column_classified_once (t0 other : SQLiteTable.t) (sc : SQLiteColumn.t) :
  NoDup (SQLiteColumn.Name <$> SQLiteTable.Columns t0) →
  sc ∈ SQLiteTable.Columns t0 →
  (SQLiteTable.ColumnByName other (SQLiteColumn.Name sc) = None →
   (SQLiteColumn.Name sc ∈ SQLiteTable.Added (SQLiteTable.DiffColumns t0 other)
    ↔ find (SQLiteTable.renameCandidate t0 sc) (SQLiteTable.Columns other) = None)
   ∧ SQLiteColumn.Name sc ∉ SQLiteTable.Modified (SQLiteTable.DiffColumns t0 other)
   ∧ SQLiteColumn.Name sc ∉ SQLiteTable.Removed (SQLiteTable.DiffColumns t0 other))
  ∧ (SQLiteTable.ColumnByName other (SQLiteColumn.Name sc) = Some sc →
     SQLiteColumn.Name sc ∉ SQLiteTable.Added (SQLiteTable.DiffColumns t0 other)
     ∧ SQLiteColumn.Name sc ∉ SQLiteTable.Modified (SQLiteTable.DiffColumns t0 other)
     ∧ SQLiteColumn.Name sc ∉ SQLiteTable.Removed (SQLiteTable.DiffColumns t0 other)
     ∧ SQLiteTable.Renamed (SQLiteTable.DiffColumns t0 other) !! SQLiteColumn.Name sc = None)
  ∧ (∀ tc, SQLiteTable.ColumnByName other (SQLiteColumn.Name sc) = Some tc →
           sc ≠ tc →
           SQLiteColumn.Type_ sc = SQLiteColumn.Type_ tc
           ∨ SQLiteColumn.IsTypeChangeCompatible sc tc = true →
           SQLiteColumn.Name sc ∈ SQLiteTable.Modified (SQLiteTable.DiffColumns t0 other)
           ∧ SQLiteColumn.Name sc ∉ SQLiteTable.Added (SQLiteTable.DiffColumns t0 other)
           ∧ SQLiteColumn.Name sc ∉ SQLiteTable.Removed (SQLiteTable.DiffColumns t0 other))
  ∧ (∀ tc, SQLiteTable.ColumnByName other (SQLiteColumn.Name sc) = Some tc →
           SQLiteColumn.Type_ sc ≠ SQLiteColumn.Type_ tc →
           SQLiteColumn.IsTypeChangeCompatible sc tc = false →
           SQLiteColumn.Name sc ∈ SQLiteTable.Added (SQLiteTable.DiffColumns t0 other)
           ∧ SQLiteColumn.Name sc ∈ SQLiteTable.Removed (SQLiteTable.DiffColumns t0 other)
           ∧ SQLiteColumn.Name sc ∉ SQLiteTable.Modified (SQLiteTable.DiffColumns t0 other)).
Proof.
  intros Hnd Hsc.
  destruct (source_column_reaches t0 other sc Hsc) as (d & HA & HM & HR).
  assert (∀ sc', sc' ∈ SQLiteTable.Columns t0 →
                 SQLiteColumn.Name sc' = SQLiteColumn.Name sc → sc' = sc) as Hsame.
  { intros sc' Hsc' Hname. by eapply NoDup_names_inj. }
  assert (hasColumnNamed t0 (SQLiteColumn.Name sc)) as Hhas by (by exists sc).
  split; [|split; [|split]].
  - intros Hnone. rewrite (new_column_step t0 other d sc Hnone) in HA. split; [split|split].
    + intros (sc' & Hsc' & Hname & [[_ Hfind]|(tc & Htc & _)])%Added_inv.
      * by rewrite <- (Hsame sc' Hsc' Hname).
      * congruence.
    + intros Hfind. rewrite Hfind in HA. apply HA. cbn. set_solver.
    + intros (sc' & tc & _ & _ & Htc & _)%Modified_inv. congruence.
    + intros [(sc' & tc & _ & _ & Htc & _)|[Hother _]]%Removed_inv_full; [congruence|].
      apply ColumnByName_is_Some in Hother. rewrite Hnone in Hother. by destruct Hother.
  - intros Hself. split; [|split; [|split]].
    + intros (sc' & Hsc' & Hname & [[Hnone _]|(tc & Htc & Hty & _)])%Added_inv; [congruence|].
      rewrite (Hsame sc' Hsc' Hname) in Hty. congruence.
    + intros (sc' & tc & Hsc' & Hname & Htc & Hne & _)%Modified_inv.
      rewrite (Hsame sc' Hsc' Hname) in Hne. congruence.
    + intros [(sc' & tc & Hsc' & Hname & Htc & Hty & _)|[_ Hnot]]%Removed_inv_full; [|done].
      rewrite (Hsame sc' Hsc' Hname) in Hty. congruence.
    + apply eq_None_not_Some. intros [new Hnew].
      by apply Renamed_inv in Hnew as (_ & _ & _ & _ & _ & _ & Hnot & _).
  - intros tc Htc Hne Hok.
    assert (SQLiteTable.diffSourceColumn t0 other d sc
            = SQLiteTable.addModified d (SQLiteColumn.Name sc)) as Hstep.
    { destruct (decide (SQLiteColumn.Type_ sc = SQLiteColumn.Type_ tc)) as [Hty|Hty].
      - by apply same_type_step with tc.
      - destruct Hok as [?|Hcompat]; [done|].
        by rewrite (type_change_step t0 other d sc tc Htc Hty), Hcompat. }
    rewrite Hstep in HM. split; [apply HM; cbn; set_solver|]. split.
    + intros (sc' & Hsc' & Hname & [[Hnone _]|(tc' & Htc' & Hty & Hcompat)])%Added_inv;
        [congruence|].
      rewrite (Hsame sc' Hsc' Hname) in Hty, Hcompat. rewrite Htc in Htc'.
      injection Htc' as <-. destruct Hok; congruence.
    + intros [(sc' & tc' & Hsc' & Hname & Htc' & Hty & Hcompat)|[_ Hnot]]%Removed_inv_full;
        [|done].
      rewrite (Hsame sc' Hsc' Hname) in Hty, Hcompat. rewrite Htc in Htc'.
      injection Htc' as <-. destruct Hok; congruence.
  - intros tc Htc Hty Hcompat.
    rewrite (type_change_step t0 other d sc tc Htc Hty), Hcompat in HA, HR.
    pose proof (ColumnByName_Some_name _ _ _ Htc) as [_ Hname].
    split; [apply HA; cbn; set_solver|]. split; [apply HR; cbn; rewrite Hname; set_solver|].
    intros (sc' & tc' & Hsc' & Hname' & Htc' & _ & Hcompat')%Modified_inv.
    rewrite (Hsame sc' Hsc' Hname') in Hcompat'. rewrite Htc in Htc'.
    injection Htc' as <-. rewrite Hcompat' in Hcompat; done.
Qed.

Lemma source_column_classified_once_witness :
  SQLiteColumn.Name (requiredText "full_name")
    ∉ SQLiteTable.Added (SQLiteTable.DiffColumns usersNew usersOld)
  ∧ SQLiteColumn.Name (column "nick" "VARCHAR")
    ∈ SQLiteTable.Added (SQLiteTable.DiffColumns usersNew usersOld)
  ∧ SQLiteColumn.Name keyColumn
    ∉ SQLiteTable.Modified (SQLiteTable.DiffColumns usersNew usersOld)
  ∧ SQLiteColumn.Name (column "age" "INTEGER")
    ∈ SQLiteTable.Modified (SQLiteTable.DiffColumns usersNew usersOld).
Proof.
  assert (NoDup (SQLiteColumn.Name <$> SQLiteTable.Columns usersNew)) as Hnd
    by (refine (bool_decide_unpack _ _); vm_compute; exact I).
  split; [|split; [|split]].
  - destruct (source_column_classified_once usersNew usersOld (requiredText "full_name") Hnd)
      as ([[Hiff _] _] & _); [set_solver|reflexivity|].
    intros Hin%Hiff. discriminate Hin.
  - destruct (source_column_classified_once usersNew usersOld (column "nick" "VARCHAR") Hnd)
      as ([[_ Hiff] _] & _); [set_solver|reflexivity|].
    by apply Hiff.
  - destruct (source_column_classified_once usersNew usersOld keyColumn Hnd)
      as (_ & (_ & Hnot & _) & _); [set_solver|reflexivity|done].
  - destruct (source_column_classified_once usersNew usersOld (column "age" "INTEGER") Hnd)
      as (_ & _ & Hmod & _); [set_solver|].
    destruct (Hmod (column "age" "TEXT")) as [Hin _]; [reflexivity|discriminate|by right|done].
Defined.

(** ** The in-place branch of [DiffTable] *)

(** X6: when no rebuild is triggered, [DiffTable] returns its statements
    (the internal error is not reached), one for each entry of [Renamed],
    [Removed] and [Added], all on the source table's name: a RENAME COLUMN
    goes from a target column that the source lacks to a source column
    that the target lacks, a DROP COLUMN names a column of the target, and
    an ADD COLUMN renders a column of the source. *)
Theorem in_place_statements_name_columns (iter : MapOrder) (t0 other : SQLiteTable.t) :
  valid_order iter →
  SQLiteTable.rebuildTriggered (SQLiteTable.DiffColumns t0 other) = false →
  ∃ stmts,
    SQLiteTable.DiffTableStmts iter t0 other = Ok stmts
    ∧ SQLiteTable.DiffTable iter t0 other = Ok (TrimSpace (written stmts))
    ∧ length stmts
      = size (SQLiteTable.Renamed (SQLiteTable.DiffColumns t0 other))
        + length (SQLiteTable.Removed (SQLiteTable.DiffColumns t0 other))
        + length (SQLiteTable.Added (SQLiteTable.DiffColumns t0 other))
    ∧ Forall (λ s,
                (∃ old new, s = RenameColumn (SQLiteTable.Name t0) old new
                            ∧ hasColumnNamed other old ∧ ¬ hasColumnNamed t0 old
                            ∧ hasColumnNamed t0 new ∧ ¬ hasColumnNamed other new)
                ∨ (∃ name, s = DropColumn (SQLiteTable.Name t0) name
                           ∧ hasColumnNamed other name)
                ∨ (∃ column, s = AddColumn (SQLiteTable.Name t0) (SQLiteColumn.String column)
                             ∧ column ∈ SQLiteTable.Columns t0))
             stmts.
Proof.
  intros Hiter Htrig.
  destruct (DiffTableStmts_in_place iter t0 other Htrig) as (adds & Hstmts & Hadds).
  eexists. split; [exact Hstmts|]. split; [|split].
  - unfold SQLiteTable.DiffTable. by rewrite Hstmts.
  - rewrite !length_app, !length_fmap, (Hiter _), <- (Forall2_length _ _ _ Hadds).
    rewrite length_map_to_list. lia.
  - apply Forall_app. split; [|apply Forall_app; split].
    + apply Forall_fmap, Forall_forall. intros [old new] Hin. cbn.
      rewrite (Hiter _) in Hin. apply elem_of_map_to_list in Hin.
      apply Renamed_inv in Hin as (tc & sc & Htc & Hold & Hsc & Hnew & Hnot & Hnot' & _).
      left. exists old, new. repeat split; try done; [by exists tc|by exists sc].
    + apply Forall_fmap, Forall_forall. intros name Hin. cbn.
      right; left. exists name. split; [done|].
      by apply Removed_inv in Hin as [? _].
    + clear Hstmts. induction Hadds as [|name s added adds (column & Hcolumn & ->) _ IH];
        constructor; [|done].
      right; right. exists column. split; [done|].
      by apply find_some_elem in Hcolumn as [? _].
Qed.

Lemma in_place_statements_name_columns_witness :
  valid_order inKeyOrder
  ∧ ∃ stmts,
      SQLiteTable.DiffTable inKeyOrder pairNew pairOld = Ok (TrimSpace (written stmts))
      ∧ length stmts = 2.
Proof.
  split; [exact valid_inKeyOrder|].
  destruct (in_place_statements_name_columns inKeyOrder pairNew pairOld valid_inKeyOrder)
    as (stmts & _ & Hdiff & Hlen & _); [reflexivity|].
  exists stmts. split; [exact Hdiff|exact Hlen].
Defined.

(** ** Indexes and triggers *)

Lemma SQLiteIndex_Equal_eq (i other : SQLiteIndex.t) :
  SQLiteIndex.Equal i other = true ↔ i = other.
Proof.
  split; [|intros ->; apply SQLiteIndex_Equal_refl].
  unfold SQLiteIndex.Equal.
  repeat case_bool_decide; cbn; try done.
  destruct (sameElements (SQLiteIndex.Columns i) (SQLiteIndex.Columns other)) eqn:Hcols;
    [|done].
  intros _. destruct i, other; cbn in *. subst.
  f_equal. by apply sameElements_eq.
Qed.

Lemma flat_map_split {A B} (f : A → list B) (l : list A) (x : A) :
  x ∈ l → ∃ pre post, flat_map f l = pre ++ f x ++ post.
Proof.
  intros (l1 & l2 & ->)%list_elem_of_split.
  exists (flat_map f l1), (flat_map f l2).
  by rewrite flat_map_app.
Qed.

(** X7: [SQLiteIndex.Equal] holds exactly of equal indexes: same name,
    table, uniqueness and columns in the same order. *)
Theorem index_Equal_is_equality (i other : SQLiteIndex.t) :
  SQLiteIndex.Equal i other = true
  ↔ SQLiteIndex.Name i = SQLiteIndex.Name other
    ∧ SQLiteIndex.Table i = SQLiteIndex.Table other
    ∧ SQLiteIndex.Unique i = SQLiteIndex.Unique other
    ∧ SQLiteIndex.Columns i = SQLiteIndex.Columns other.
Proof.
  rewrite SQLiteIndex_Equal_eq. split; [by intros ->|].
  destruct i, other; cbn. intros (-> & -> & -> & ->). done.
Qed.

(** X8: the statements of [DiffIndexes]. CREATE INDEX is written exactly
    for the source indexes whose name finds no equal index in the target,
    DROP INDEX exactly for the target indexes whose name the source lacks
    and for the names of the source indexes that differ from their
    namesake; for such a changed index the DROP INDEX comes immediately
    before its CREATE INDEX; and nothing else is written. *)
Theorem index_statements (t0 other : SQLiteTable.t) :
  (∀ def, CreateIndex def ∈ SQLiteTable.DiffIndexesStmts t0 other
          ↔ ∃ i, i ∈ SQLiteTable.Indexes t0
                 ∧ SQLiteTable.IndexByName other (SQLiteIndex.Name i) ≠ Some i
                 ∧ def = SQLiteIndex.String i)
  ∧ (∀ name, DropIndex name ∈ SQLiteTable.DiffIndexesStmts t0 other
             ↔ (∃ ti, ti ∈ SQLiteTable.Indexes other ∧ SQLiteIndex.Name ti = name
                      ∧ SQLiteTable.IndexByName t0 name = None)
               ∨ (∃ i ti, i ∈ SQLiteTable.Indexes t0 ∧ SQLiteIndex.Name i = name
                          ∧ SQLiteTable.IndexByName other name = Some ti ∧ i ≠ ti))
  ∧ (∀ i ti, i ∈ SQLiteTable.Indexes t0 →
             SQLiteTable.IndexByName other (SQLiteIndex.Name i) = Some ti → i ≠ ti →
             ∃ pre post,
               SQLiteTable.DiffIndexesStmts t0 other
               = pre ++ [DropIndex (SQLiteIndex.Name i); CreateIndex (SQLiteIndex.String i)]
                     ++ post)
  ∧ Forall (λ s, (∃ def, s = CreateIndex def) ∨ (∃ name, s = DropIndex name))
           (SQLiteTable.DiffIndexesStmts t0 other)
  ∧ SQLiteTable.DiffIndexes t0 other = Ok (written (SQLiteTable.DiffIndexesStmts t0 other)).
Proof.
  assert (∀ name ti, SQLiteTable.IndexByName other name = Some ti → SQLiteIndex.Name ti = name)
    as Hname.
  { intros name ti [_ Hti]%find_some_elem. by apply bool_decide_eq_true in Hti. }
  unfold SQLiteTable.DiffIndexesStmts. split; [|split; [|split; [|split]]].
  - intros def. rewrite elem_of_app, !elem_of_flat_map. split.
    + intros [(i & Hi & Hin)|(ti & Hti & Hin)].
      * exists i. split; [done|].
        destruct (SQLiteTable.IndexByName other (SQLiteIndex.Name i)) as [ti|] eqn:Hti.
        -- destruct (SQLiteIndex.Equal i ti) eqn:Heq; cbn in Hin; [by apply elem_of_nil in Hin|].
           split; [|set_solver]. intros [= <-]. by rewrite SQLiteIndex_Equal_refl in Heq.
        -- split; [done|set_solver].
      * destruct (SQLiteTable.IndexByName t0 (SQLiteIndex.Name ti)); set_solver.
    + intros (i & Hi & Hne & ->). left. exists i. split; [done|].
      destruct (SQLiteTable.IndexByName other (SQLiteIndex.Name i)) as [ti|] eqn:Hti;
        [|set_solver].
      destruct (SQLiteIndex.Equal i ti) eqn:Heq; cbn; [|set_solver].
      apply SQLiteIndex_Equal_eq in Heq as <-. done.
  - intros name. rewrite elem_of_app, !elem_of_flat_map. split.
    + intros [(i & Hi & Hin)|(ti & Hti & Hin)].
      * right. destruct (SQLiteTable.IndexByName other (SQLiteIndex.Name i)) as [ti|] eqn:Hti;
          [|set_solver].
        destruct (SQLiteIndex.Equal i ti) eqn:Heq; cbn in Hin; [by apply elem_of_nil in Hin|].
        assert (name = SQLiteIndex.Name ti) as -> by set_solver.
        pose proof (Hname _ _ Hti) as Hsame.
        exists i, ti. rewrite Hsame. repeat split; try done.
        intros ->. by rewrite SQLiteIndex_Equal_refl in Heq.
      * left. destruct (SQLiteTable.IndexByName t0 (SQLiteIndex.Name ti)) eqn:Hnone;
          [by apply elem_of_nil in Hin|].
        assert (name = SQLiteIndex.Name ti) as -> by set_solver.
        by exists ti.
    + intros [(ti & Hti & <- & Hnone)|(i & ti & Hi & <- & Hti & Hne)].
      * right. exists ti. split; [done|]. rewrite Hnone. set_solver.
      * left. exists i. split; [done|]. rewrite Hti.
        destruct (SQLiteIndex.Equal i ti) eqn:Heq; [by apply SQLiteIndex_Equal_eq in Heq|].
        cbn. rewrite (Hname _ _ Hti). set_solver.
  - intros i ti Hi Hti Hne.
    match goal with
    | |- context [flat_map ?f (SQLiteTable.Indexes t0) ++ ?rest] =>
        destruct (flat_map_split f _ _ Hi) as (pre & post & ->); exists pre, (post ++ rest)
    end.
    rewrite Hti.
    destruct (SQLiteIndex.Equal i ti) eqn:Heq; [by apply SQLiteIndex_Equal_eq in Heq|].
    cbn [negb]. rewrite (Hname _ _ Hti). by rewrite <- !app_assoc.
  - apply Forall_app. split; apply Forall_flat_map; intros i _.
    + repeat case_match; repeat (apply Forall_cons_2; [eauto|]); apply Forall_nil_2.
    + repeat case_match; repeat (apply Forall_cons_2; [eauto|]); apply Forall_nil_2.
  - done.
Qed.

(** X9: the statements of [DiffTriggers]. CREATE TRIGGER is written
    exactly for the source triggers whose name is missing from the target
    or finds a trigger with another SQL text, DROP TRIGGER exactly for the
    target triggers whose name the source lacks and for the names of the
    source triggers whose text changed; for a changed trigger the DROP
    TRIGGER comes immediately before its CREATE TRIGGER; and nothing else
    is written. *)
Theorem trigger_statements (t0 other : SQLiteTable.t) :
  (∀ def, CreateTrigger def ∈ SQLiteTable.DiffTriggersStmts t0 other
          ↔ ∃ tr, tr ∈ SQLiteTable.Triggers t0
                  ∧ (∀ ttr, SQLiteTable.TriggerByName other (SQLiteTrigger.Name tr) = Some ttr →
                            SQLiteTrigger.SQL tr ≠ SQLiteTrigger.SQL ttr)
                  ∧ def = SQLiteTrigger.SQL tr +:+ ";")
  ∧ (∀ name, DropTrigger name ∈ SQLiteTable.DiffTriggersStmts t0 other
             ↔ (∃ ttr, ttr ∈ SQLiteTable.Triggers other ∧ SQLiteTrigger.Name ttr = name
                       ∧ SQLiteTable.TriggerByName t0 name = None)
               ∨ (∃ tr ttr, tr ∈ SQLiteTable.Triggers t0 ∧ SQLiteTrigger.Name tr = name
                            ∧ SQLiteTable.TriggerByName other name = Some ttr
                            ∧ SQLiteTrigger.SQL tr ≠ SQLiteTrigger.SQL ttr))
  ∧ (∀ tr ttr, tr ∈ SQLiteTable.Triggers t0 →
               SQLiteTable.TriggerByName other (SQLiteTrigger.Name tr) = Some ttr →
               SQLiteTrigger.SQL tr ≠ SQLiteTrigger.SQL ttr →
               ∃ pre post,
                 SQLiteTable.DiffTriggersStmts t0 other
                 = pre ++ [DropTrigger (SQLiteTrigger.Name tr);
                           CreateTrigger (SQLiteTrigger.SQL tr +:+ ";")]
                       ++ post)
  ∧ Forall (λ s, (∃ def, s = CreateTrigger def) ∨ (∃ name, s = DropTrigger name))
           (SQLiteTable.DiffTriggersStmts t0 other)
  ∧ SQLiteTable.DiffTriggers t0 other = Ok (written (SQLiteTable.DiffTriggersStmts t0 other)).
Proof.
  assert (∀ name ttr, SQLiteTable.TriggerByName other name = Some ttr →
                      SQLiteTrigger.Name ttr = name) as Hname.
  { intros name ttr [_ Httr]%find_some_elem. by apply bool_decide_eq_true in Httr. }
  unfold SQLiteTable.DiffTriggersStmts. split; [|split; [|split; [|split]]].
  - intros def. rewrite elem_of_app, !elem_of_flat_map. split.
    + intros [(tr & Htr & Hin)|(ttr & Httr & Hin)].
      * exists tr. split; [done|].
        destruct (SQLiteTable.TriggerByName other (SQLiteTrigger.Name tr)) as [ttr|] eqn:Httr.
        -- case_bool_decide as Hsql; [|by apply elem_of_nil in Hin].
           split; [|set_solver]. by intros ? [= <-].
        -- split; [done|set_solver].
      * destruct (SQLiteTable.TriggerByName t0 (SQLiteTrigger.Name ttr)); set_solver.
    + intros (tr & Htr & Hne & ->). left. exists tr. split; [done|].
      destruct (SQLiteTable.TriggerByName other (SQLiteTrigger.Name tr)) as [ttr|] eqn:Httr;
        [|set_solver].
      rewrite bool_decide_eq_true_2 by (by apply Hne). set_solver.
  - intros name. rewrite elem_of_app, !elem_of_flat_map. split.
    + intros [(tr & Htr & Hin)|(ttr & Httr & Hin)].
      * right.
        destruct (SQLiteTable.TriggerByName other (SQLiteTrigger.Name tr)) as [ttr|] eqn:Httr;
          [|set_solver].
        case_bool_decide as Hsql; [|by apply elem_of_nil in Hin].
        assert (name = SQLiteTrigger.Name ttr) as -> by set_solver.
        pose proof (Hname _ _ Httr) as Hsame.
        exists tr, ttr. by rewrite Hsame.
      * left. destruct (SQLiteTable.TriggerByName t0 (SQLiteTrigger.Name ttr)) eqn:Hnone;
          [by apply elem_of_nil in Hin|].
        assert (name = SQLiteTrigger.Name ttr) as -> by set_solver.
        by exists ttr.
    + intros [(ttr & Httr & <- & Hnone)|(tr & ttr & Htr & <- & Httr & Hne)].
      * right. exists ttr. split; [done|]. rewrite Hnone. set_solver.
      * left. exists tr. split; [done|]. rewrite Httr.
        rewrite bool_decide_eq_true_2 by done. rewrite (Hname _ _ Httr). set_solver.
  - intros tr ttr Htr Httr Hne.
    match goal with
    | |- context [flat_map ?f (SQLiteTable.Triggers t0) ++ ?rest] =>
        destruct (flat_map_split f _ _ Htr) as (pre & post & ->); exists pre, (post ++ rest)
    end.
    rewrite Httr, bool_decide_eq_true_2 by done.
    rewrite (Hname _ _ Httr). by rewrite <- !app_assoc.
  - apply Forall_app. split; apply Forall_flat_map; intros tr _.
    + repeat (case_match || case_bool_decide);
        repeat (apply Forall_cons_2; [eauto|]); apply Forall_nil_2.
    + repeat case_match; repeat (apply Forall_cons_2; [eauto|]); apply Forall_nil_2.
  - done.
Qed.

(** ** PostgreSQL: constraints, indexes and triggers

    The three loops of [PostgresTable.DiffTable] after the columns have one
    shape: objects are paired by name, a source object without namesake is
    created, one whose definition differs from its namesake's is dropped
    and created again, and a target object without namesake is dropped. *)

Section ByName.
Context {A : Type} (name : A → string) (changed : A → A → bool) (create drop : A → Stmt).

Lemma by_name_statements (source target : list A) (s : Stmt) :
  s ∈ flat_map (λ x, match find (λ y, bool_decide (name y = name x)) target with
                     | None => [create x]
                     | Some y => if changed x y then [drop y; create x] else []
                     end) source
      ++ flat_map (λ y, match find (λ x, bool_decide (name x = name y)) source with
                        | None => [drop y]
                        | Some _ => []
                        end) target
  ↔ (∃ x, x ∈ source
          ∧ (∀ y, find (λ y, bool_decide (name y = name x)) target = Some y →
                  changed x y = true)
          ∧ s = create x)
    ∨ (∃ x y, x ∈ source
              ∧ find (λ y, bool_decide (name y = name x)) target = Some y
              ∧ changed x y = true ∧ s = drop y)
    ∨ (∃ y, y ∈ target
            ∧ find (λ x, bool_decide (name x = name y)) source = None
            ∧ s = drop y).
Proof.
  rewrite elem_of_app, !elem_of_flat_map. split.
  - intros [(x & Hx & Hin)|(y & Hy & Hin)].
    + destruct (find _ target) as [y|] eqn:Hy.
      * destruct (changed x y) eqn:Hch; [|by apply elem_of_nil in Hin].
        apply elem_of_cons in Hin as [->|Hin].
        -- right; left. by exists x, y.
        -- apply list_elem_of_singleton in Hin as ->. left. exists x.
           split; [done|]. split; [|done]. intros y'. rewrite Hy. by intros [= <-].
      * apply list_elem_of_singleton in Hin as ->. left. exists x.
        split; [done|]. split; [|done]. intros y'. by rewrite Hy.
    + destruct (find _ source) eqn:Hx; [by apply elem_of_nil in Hin|].
      apply list_elem_of_singleton in Hin as ->. right; right. by exists y.
  - intros [(x & Hx & Hch & ->)|[(x & y & Hx & Hy & Hch & ->)|(y & Hy & Hnone & ->)]].
    + left. exists x. split; [done|].
      destruct (find _ target) as [y|] eqn:Hy; [|apply list_elem_of_here].
      rewrite (Hch y eq_refl). apply list_elem_of_further, list_elem_of_here.
    + left. exists x. split; [done|]. rewrite Hy, Hch. apply list_elem_of_here.
    + right. exists y. split; [done|]. rewrite Hnone. apply list_elem_of_here.
Qed.

Lemma by_name_drop_then_create (source target rest : list A) (x y : A) (f : A → list Stmt) :
  x ∈ source →
  find (λ y, bool_decide (name y = name x)) target = Some y →
  changed x y = true →
  ∃ pre post,
    flat_map (λ x, match find (λ y, bool_decide (name y = name x)) target with
                   | None => [create x]
                   | Some y => if changed x y then [drop y; create x] else []
                   end) source
    ++ flat_map f rest
    = pre ++ [drop y; create x] ++ post.
Proof.
  intros Hx Hy Hch.
  match goal with
  | |- context [flat_map ?g source ++ ?r] =>
      destruct (flat_map_split g _ _ Hx) as (pre & post & ->); exists pre, (post ++ r)
  end.
  rewrite Hy, Hch. by rewrite <- !app_assoc.
Qed.

End ByName.

Section PostgresObjects.
Context {PostgresIndex PostgresTrigger : Type}.
Context {DI : Definable.t PostgresIndex} {DT : Definable.t PostgresTrigger}.

(** X10: the constraint statements of [PostgresTable.DiffTable]. ADD
    CONSTRAINT is written exactly for the source constraints whose name
    is missing from the target or finds a constraint with another
    definition, DROP CONSTRAINT exactly for those changed constraints and
    for the target constraints whose name the source lacks; for a changed
    constraint the DROP comes immediately before the ADD. *)
Theorem constraint_statements (t0 other : PostgresTable.t PostgresIndex PostgresTrigger) :
  (∀ s, s ∈ PostgresTable.constraintStmts t0 other
        ↔ (∃ c, c ∈ PostgresTable.Constraints t0
                ∧ (∀ tc, PostgresTable.ConstraintByName other (PostgresConstraint.Name c)
                         = Some tc →
                         PostgresConstraint.Def c ≠ PostgresConstraint.Def tc)
                ∧ s = AddConstraint (PostgresTable.Name t0) (PostgresConstraint.String c))
          ∨ (∃ c tc, c ∈ PostgresTable.Constraints t0
                     ∧ PostgresTable.ConstraintByName other (PostgresConstraint.Name c)
                       = Some tc
                     ∧ PostgresConstraint.Def c ≠ PostgresConstraint.Def tc
                     ∧ s = DropConstraint (PostgresTable.Name t0) (PostgresConstraint.Name c))
          ∨ (∃ tc, tc ∈ PostgresTable.Constraints other
                   ∧ PostgresTable.ConstraintByName t0 (PostgresConstraint.Name tc) = None
                   ∧ s = DropConstraint (PostgresTable.Name t0) (PostgresConstraint.Name tc)))
  ∧ (∀ c tc, c ∈ PostgresTable.Constraints t0 →
             PostgresTable.ConstraintByName other (PostgresConstraint.Name c) = Some tc →
             PostgresConstraint.Def c ≠ PostgresConstraint.Def tc →
             ∃ pre post,
               PostgresTable.constraintStmts t0 other
               = pre ++ [DropConstraint (PostgresTable.Name t0) (PostgresConstraint.Name c);
                         AddConstraint (PostgresTable.Name t0) (PostgresConstraint.String c)]
                     ++ post).
Proof.
  assert (∀ name tc, PostgresTable.ConstraintByName other name = Some tc →
                     PostgresConstraint.Name tc = name) as Hname.
  { intros name tc [_ Htc]%find_some_elem. by apply bool_decide_eq_true in Htc. }
  split.
  - intros s. unfold PostgresTable.constraintStmts.
    refine (iff_trans (by_name_statements PostgresConstraint.Name
               (λ x y, bool_decide (PostgresConstraint.Def x ≠ PostgresConstraint.Def y))
               (λ x, AddConstraint (PostgresTable.Name t0) (PostgresConstraint.String x))
               (λ y, DropConstraint (PostgresTable.Name t0) (PostgresConstraint.Name y))
               (PostgresTable.Constraints t0) (PostgresTable.Constraints other) s) _).
    unfold PostgresTable.ConstraintByName. cbn beta.
    split; (intros [(c & Hc & Hch & ->)|[(c & tc & Hc & Htc & Hch & ->)|H]]; [left|right; left|by right; right]).
    + exists c. split; [done|]. split; [|done]. intros tc Htc.
      specialize (Hch _ Htc). by apply bool_decide_eq_true in Hch.
    + exists c, tc. apply bool_decide_eq_true in Hch.
      split; [done|]. split; [done|]. split; [done|]. by rewrite (Hname _ _ Htc).
    + exists c. split; [done|]. split; [|done]. intros tc Htc.
      apply bool_decide_eq_true. by apply Hch.
    + exists c, tc. split; [done|]. split; [done|].
      split; [by apply bool_decide_eq_true|]. by rewrite (Hname _ _ Htc).
  - intros c tc Hc Htc Hne. unfold PostgresTable.constraintStmts.
    match goal with
    | |- context [flat_map ?f (PostgresTable.Constraints other)] =>
        destruct (by_name_drop_then_create PostgresConstraint.Name
                 (λ x y, bool_decide (PostgresConstraint.Def x ≠ PostgresConstraint.Def y))
                 (λ x, AddConstraint (PostgresTable.Name t0) (PostgresConstraint.String x))
                 (λ y, DropConstraint (PostgresTable.Name t0) (PostgresConstraint.Name y))
                    (PostgresTable.Constraints t0) (PostgresTable.Constraints other)
                    (PostgresTable.Constraints other) _ _ f Hc Htc
                    (proj2 (bool_decide_eq_true _) Hne)) as (pre & post & Heq)
    end.
    exists pre, post. etrans; [exact Heq|]. cbn beta. by rewrite (Hname _ _ Htc).
Qed.

(** X11: the index and trigger statements of [PostgresTable.DiffTable].
    An index or trigger is created when its name is missing from the
    target or its definition differs from its namesake's; it is dropped in
    the second case, and when it is in the target only; a changed index
    or trigger is dropped immediately before it is created again. *)
Theorem index_and_trigger_statements
    (t0 other : PostgresTable.t PostgresIndex PostgresTrigger) :
  (∀ s, s ∈ PostgresTable.indexStmts t0 other
        ↔ (∃ i, i ∈ PostgresTable.Indexes t0
                ∧ (∀ ti, PostgresTable.IndexByName other (Definable.Name i) = Some ti →
                         Definable.Def i ≠ Definable.Def ti)
                ∧ s = CreateIndex (Definable.String i))
          ∨ (∃ i ti, i ∈ PostgresTable.Indexes t0
                     ∧ PostgresTable.IndexByName other (Definable.Name i) = Some ti
                     ∧ Definable.Def i ≠ Definable.Def ti
                     ∧ s = DropIndex (Definable.Name i))
          ∨ (∃ ti, ti ∈ PostgresTable.Indexes other
                   ∧ PostgresTable.IndexByName t0 (Definable.Name ti) = None
                   ∧ s = DropIndex (Definable.Name ti)))
  ∧ (∀ s, s ∈ PostgresTable.triggerStmts t0 other
          ↔ (∃ tr, tr ∈ PostgresTable.Triggers t0
                   ∧ (∀ ttr, PostgresTable.TriggerByName other (Definable.Name tr) = Some ttr →
                             Definable.Def tr ≠ Definable.Def ttr)
                   ∧ s = CreateTrigger (Definable.String tr))
            ∨ (∃ tr ttr, tr ∈ PostgresTable.Triggers t0
                         ∧ PostgresTable.TriggerByName other (Definable.Name tr) = Some ttr
                         ∧ Definable.Def tr ≠ Definable.Def ttr
                         ∧ s = DropTriggerOn (Definable.Name tr) (PostgresTable.Name t0))
            ∨ (∃ ttr, ttr ∈ PostgresTable.Triggers other
                      ∧ PostgresTable.TriggerByName t0 (Definable.Name ttr) = None
                      ∧ s = DropTriggerOn (Definable.Name ttr) (PostgresTable.Name t0)))
  ∧ (∀ i ti, i ∈ PostgresTable.Indexes t0 →
             PostgresTable.IndexByName other (Definable.Name i) = Some ti →
             Definable.Def i ≠ Definable.Def ti →
             ∃ pre post,
               PostgresTable.indexStmts t0 other
               = pre ++ [DropIndex (Definable.Name i); CreateIndex (Definable.String i)]
                     ++ post)
  ∧ (∀ tr ttr, tr ∈ PostgresTable.Triggers t0 →
               PostgresTable.TriggerByName other (Definable.Name tr) = Some ttr →
               Definable.Def tr ≠ Definable.Def ttr →
               ∃ pre post,
                 PostgresTable.triggerStmts t0 other
                 = pre ++ [DropTriggerOn (Definable.Name tr) (PostgresTable.Name t0);
                           CreateTrigger (Definable.String tr)]
                       ++ post).
Proof.
  assert (∀ name ti, PostgresTable.IndexByName other name = Some ti →
                     Definable.Name ti = name) as Hindex.
  { intros name ti [_ Hti]%find_some_elem. by apply bool_decide_eq_true in Hti. }
  assert (∀ name ttr, PostgresTable.TriggerByName other name = Some ttr →
                      Definable.Name ttr = name) as Htrigger.
  { intros name ttr [_ Httr]%find_some_elem. by apply bool_decide_eq_true in Httr. }
  split; [|split; [|split]].
  - intros s. unfold PostgresTable.indexStmts.
    refine (iff_trans (by_name_statements Definable.Name
               (λ x y : PostgresIndex, bool_decide (Definable.Def x ≠ Definable.Def y))
               (λ x, CreateIndex (Definable.String x))
               (λ y, DropIndex (Definable.Name y))
               (PostgresTable.Indexes t0) (PostgresTable.Indexes other) s) _).
    unfold PostgresTable.IndexByName. cbn beta.
    split; (intros [(i & Hi & Hch & ->)|[(i & ti & Hi & Hti & Hch & ->)|H]]; [left|right; left|by right; right]).
    + exists i. split; [done|]. split; [|done]. intros ti Hti.
      specialize (Hch _ Hti). by apply bool_decide_eq_true in Hch.
    + exists i, ti. apply bool_decide_eq_true in Hch.
      split; [done|]. split; [done|]. split; [done|]. by rewrite (Hindex _ _ Hti).
    + exists i. split; [done|]. split; [|done]. intros ti Hti.
      apply bool_decide_eq_true. by apply Hch.
    + exists i, ti. split; [done|]. split; [done|].
      split; [by apply bool_decide_eq_true|]. by rewrite (Hindex _ _ Hti).
  - intros s. unfold PostgresTable.triggerStmts.
    refine (iff_trans (by_name_statements Definable.Name
               (λ x y : PostgresTrigger, bool_decide (Definable.Def x ≠ Definable.Def y))
               (λ x, CreateTrigger (Definable.String x))
               (λ y, DropTriggerOn (Definable.Name y) (PostgresTable.Name t0))
               (PostgresTable.Triggers t0) (PostgresTable.Triggers other) s) _).
    unfold PostgresTable.TriggerByName. cbn beta.
    split; (intros [(tr & Htr & Hch & ->)|[(tr & ttr & Htr & Httr & Hch & ->)|H]]; [left|right; left|by right; right]).
    + exists tr. split; [done|]. split; [|done]. intros ttr Httr.
      specialize (Hch _ Httr). by apply bool_decide_eq_true in Hch.
    + exists tr, ttr. apply bool_decide_eq_true in Hch.
      split; [done|]. split; [done|]. split; [done|]. by rewrite (Htrigger _ _ Httr).
    + exists tr. split; [done|]. split; [|done]. intros ttr Httr.
      apply bool_decide_eq_true. by apply Hch.
    + exists tr, ttr. split; [done|]. split; [done|].
      split; [by apply bool_decide_eq_true|]. by rewrite (Htrigger _ _ Httr).
  - intros i ti Hi Hti Hne. unfold PostgresTable.indexStmts.
    match goal with
    | |- context [flat_map ?f (PostgresTable.Indexes other)] =>
        destruct (by_name_drop_then_create Definable.Name
                 (λ x y : PostgresIndex, bool_decide (Definable.Def x ≠ Definable.Def y))
                 (λ x, CreateIndex (Definable.String x))
                 (λ y, DropIndex (Definable.Name y))
                    (PostgresTable.Indexes t0) (PostgresTable.Indexes other)
                    (PostgresTable.Indexes other) _ _ f Hi Hti
                    (proj2 (bool_decide_eq_true _) Hne)) as (pre & post & Heq)
    end.
    exists pre, post. etrans; [exact Heq|]. cbn beta. by rewrite (Hindex _ _ Hti).
  - intros tr ttr Htr Httr Hne. unfold PostgresTable.triggerStmts.
    match goal with
    | |- context [flat_map ?f (PostgresTable.Triggers other)] =>
        destruct (by_name_drop_then_create Definable.Name
                 (λ x y : PostgresTrigger, bool_decide (Definable.Def x ≠ Definable.Def y))
                 (λ x, CreateTrigger (Definable.String x))
                 (λ y, DropTriggerOn (Definable.Name y) (PostgresTable.Name t0))
                    (PostgresTable.Triggers t0) (PostgresTable.Triggers other)
                    (PostgresTable.Triggers other) _ _ f Htr Httr
                    (proj2 (bool_decide_eq_true _) Hne)) as (pre & post & Heq)
    end.
    exists pre, post. etrans; [exact Heq|]. cbn beta. by rewrite (Htrigger _ _ Httr).
Qed.

End PostgresObjects.
